(** * Product catalogue and session cart API (server.js)

    A shallow embedding of the Express handlers of [server.js] and the
    properties of the cart store that follow from them.

    Conventions of the embedding.

    - JavaScript numbers that hold integers (product ids, stock, quantities,
      array indices) are integers of [Z].  This is exact below
      2^53, which covers every id, stock and quantity the catalogue allows;
      beyond it JavaScript rounds, and rounding never maps a larger integer
      onto a smaller one, so comparisons against catalogue values agree.
    - The numbers of a query string are rationals of [Q].
    - Prices and totals are binary64 values, [spec_float] with the operations
      of the standard [SpecFloat] at precision 53 and maximal exponent 1024.
    - Strings are sequences of 8-bit code units.
    - The [carts] map holds references to arrays; arrays live in a heap and
      are updated in place, as [cart.push], [cart.splice] and
      [cart[i].quantity = q] do. *)

From Stdlib Require Import ZArith QArith Qround Ascii Floats.SpecFloat.
From stdpp Require Import gmap strings list fin_maps.

Open Scope Z_scope.

(** ** JavaScript numbers *)

Module Number.

Definition prec : Z := 53.
Definition emax : Z := 1024.

(** A Number value. *)
Definition t : Type := spec_float.

Definition add : t → t → t := SFadd prec emax.
Definition mul : t → t → t := SFmul prec emax.

(** The Number nearest to an integer (ties to even). *)
Definition of_Z (z : Z) : t := binary_normalize prec emax z 0 false.

(** The Number nearest to the ratio [n / d] of two positive integers: the
    value of a decimal literal such as [999.99], and of [parseFloat] on the
    output of [toFixed]. *)
Definition of_ratio (s : bool) (n d : positive) : t :=
  let '(mz, ez, lz) := SFdiv_core_binary prec emax (Zpos n) 0 (Zpos d) 0 in
  binary_round_aux prec emax s mz ez lz.

(** [cents c] is the literal with integer part [c / 100] and two decimals
    [c mod 100]. *)
Definition cents (c : positive) : t := of_ratio false c 100.

Definition zero : t := S754_zero false.

(** [x.toFixed(2)] for a finite [x] below 10^21 prints [n / 100] where [n]
    is the integer closest to [100 * |x|], the larger one on a tie.  For a
    mantissa [m] and exponent [e] this is [floor (100 * m * 2^e + 1/2)]. *)
Definition toFixed2_cents (m : positive) (e : Z) : Z :=
  if 0 <=? e then 100 * Zpos m * 2 ^ e
  else (200 * Zpos m + 2 ^ (- e)) / 2 ^ (1 - e).

Definition ge_1e21 (m : positive) (e : Z) : bool :=
  if 0 <=? e then 10 ^ 21 <=? Zpos m * 2 ^ e
  else 10 ^ 21 * 2 ^ (- e) <=? Zpos m.

(** [parseFloat(x.toFixed(2))].  NaN and the infinities print as words that
    [parseFloat] reads back; values from 10^21 on print in exponent
    notation and read back unchanged; [-0] prints as [0.00]. *)
Definition round2 (x : t) : t :=
  match x with
  | S754_nan => S754_nan
  | S754_infinity s => S754_infinity s
  | S754_zero _ => S754_zero false
  | S754_finite s m e =>
      if ge_1e21 m e then x
      else match toFixed2_cents m e with
           | Zpos n => of_ratio s n 100
           | _ => S754_zero s
           end
  end.

End Number.

(** ** Strings and [parseInt] *)

Definition code (c : ascii) : Z := Z.of_N (N_of_ascii c).

(** White space that [parseInt] skips (the 8-bit part of StrWhiteSpaceChar). *)
Definition isWhiteSpace (c : ascii) : bool :=
  let n := code c in
  ((9 <=? n) && (n <=? 13)) || (n =? 32) || (n =? 160).

Fixpoint trimStart (s : string) : string :=
  match s with
  | String c r => if isWhiteSpace c then trimStart r else s
  | EmptyString => s
  end.

(** Value of a character as a digit in the given radix. *)
Definition digitValue (radix : Z) (c : ascii) : option Z :=
  let n := code c in
  let v := if (48 <=? n) && (n <=? 57) then Some (n - 48)
           else if (97 <=? n) && (n <=? 122) then Some (n - 87)
           else if (65 <=? n) && (n <=? 90) then Some (n - 55)
           else None in
  match v with
  | Some d => if d <? radix then Some d else None
  | None => None
  end.

(** The longest prefix of digits, most significant first. *)
Fixpoint digitsPrefix (radix : Z) (s : string) : list Z :=
  match s with
  | String c r =>
      match digitValue radix c with
      | Some d => d :: digitsPrefix radix r
      | None => []
      end
  | EmptyString => []
  end.

Definition digitsValue (radix : Z) (ds : list Z) : Z :=
  fold_left (λ acc d, acc * radix + d) ds 0.

Definition stripSign (s : string) : Z * string :=
  match s with
  | String "-" r => (-1, r)
  | String "+" r => (1, r)
  | _ => (1, s)
  end.

Definition stripHexPrefix (s : string) : Z * string :=
  match s with
  | String "0" (String "x" r) => (16, r)
  | String "0" (String "X" r) => (16, r)
  | _ => (10, s)
  end.

(** [parseInt(s)] with no radix argument; [None] is NaN. *)
Definition parseInt (s : string) : option Z :=
  let '(sign, s1) := stripSign (trimStart s) in
  let '(radix, s2) := stripHexPrefix s1 in
  match digitsPrefix radix s2 with
  | [] => None
  | ds => Some (sign * digitsValue radix ds)
  end.

Definition isNaN (n : option Z) : bool :=
  match n with None => true | Some _ => false end.

(** [a === b] for an integer [a] and the result of [parseInt]. *)
Definition strictEq (a : Z) (b : option Z) : Prop := b = Some a.

Global Instance strictEq_dec a b : Decision (strictEq a b).
Proof. unfold strictEq. apply _. Defined.

(** ASCII part of [String.prototype.toLowerCase]. *)
Definition lowerChar (c : ascii) : ascii :=
  let n := code c in
  if (65 <=? n) && (n <=? 90) then ascii_of_N (Z.to_N (n + 32)) else c.

Fixpoint toLowerCase (s : string) : string :=
  match s with
  | String c r => String (lowerChar c) (toLowerCase r)
  | EmptyString => EmptyString
  end.

(** [s.includes(sub)]. *)
Fixpoint includes (s sub : string) : bool :=
  String.prefix sub s ||
  match s with
  | String _ r => includes r sub
  | EmptyString => false
  end.

(** ** Data model *)

Module Product.
Record t := mk {
  id : Z;
  name : string;
  price : Number.t;
  image : string;
  description : string;
  stock : Z
}.
End Product.

Module CartItem.
Record t := mk {
  id : Z;
  name : string;
  price : Number.t;
  image : string;
  quantity : Z
}.

Definition setQuantity (item : t) (q : Z) : t :=
  mk (id item) (name item) (price item) (image item) q.
End CartItem.

Definition products : list Product.t := [
  Product.mk 1 "iPhone 15 Pro" (Number.cents 99999)
    "https://9to5mac.com/wp-content/uploads/sites/6/2024/07/apple-device-lineup.jpg?quality=82&strip=all&w=1600"
    "Latest iPhone with advanced features" 50;
  Product.mk 2 "Samsung Galaxy S24" (Number.cents 89999)
    "https://wallpaperaccess.com/full/9496579.jpg"
    "Flagship Samsung smartphone" 30;
  Product.mk 3 "MacBook Pro M3" (Number.cents 199999)
    "https://wallpaperaccess.com/full/9496579.jpg"
    "Powerful laptop for professionals" 25;
  Product.mk 4 "Sony WH-1000XM5" (Number.cents 39999)
    "https://wallpaperaccess.com/full/9496579.jpg"
    "Noise-canceling wireless headphones" 40;
  Product.mk 5 "iPad Air" (Number.cents 59999)
    "https://tse4.mm.bing.net/th/id/OIP.E9Ux33FuCo7mGLn9Ey3wnAHaE8?pid=Api&P=0&h=180"
    "Versatile tablet for work and play" 35
].

(** ** Utility functions *)

Definition findProductById (id : string) : option Product.t :=
  snd <$> list_find (λ product, strictEq (Product.id product) (parseInt id)) products.

Definition calculateCartTotal (cart : list CartItem.t) : Number.t :=
  fold_left
    (λ total item,
       Number.add total
         (Number.mul (CartItem.price item) (Number.of_Z (CartItem.quantity item))))
    cart Number.zero.

(** ** The cart store

    [const carts = new Map()] maps a session id to a reference to an array
    of line items.  Arrays are allocated by the literal [[]] and changed in
    place through the reference that [carts.get] returns. *)

Definition loc : Type := positive.

Record Store := mkStore {
  carts : gmap string loc;
  arrays : gmap loc (list CartItem.t)
}.

Definition emptyStore : Store := mkStore ∅ ∅.

(** Evaluation of the array literal [[]]: a new, empty array. *)
Definition allocArray (st : Store) : loc * Store :=
  let l := fresh (dom (arrays st)) in
  (l, mkStore (carts st) (<[l := []]> (arrays st))).

(** The contents of the array behind a reference. *)
Definition deref (st : Store) (l : loc) : list CartItem.t :=
  default [] (arrays st !! l).

(** In-place update of the array behind a reference. *)
Definition assign (st : Store) (l : loc) (cart : list CartItem.t) : Store :=
  mkStore (carts st) (<[l := cart]> (arrays st)).

(** [carts.set(sessionId, l)]. *)
Definition cartsSet (st : Store) (sessionId : string) (l : loc) : Store :=
  mkStore (<[sessionId := l]> (carts st)) (arrays st).

Definition getOrCreateCart (sessionId : string) (st : Store) : loc * Store :=
  match carts st !! sessionId with
  | Some l => (l, st)
  | None =>
      let '(l, st) := allocArray st in
      (l, cartsSet st sessionId l)
  end.

(** What a session sees: the contents of its array, if it has one. *)
Definition cartOf (st : Store) (sessionId : string) : option (list CartItem.t) :=
  deref st <$> carts st !! sessionId.

(** The cart a session would be shown: the empty cart when it has none. *)
Definition cartView (st : Store) (sessionId : string) : list CartItem.t :=
  default [] (cartOf st sessionId).

(** ** Requests and responses *)

(** A value of the JSON request body. *)
Inductive JsValue :=
  | JNull
  | JBool (b : bool)
  | JInteger (z : Z)        (* a number with an integer value *)
  | JFraction               (* any other number *)
  | JString (s : string)
  | JObject.                (* an object or an array *)

Inductive ErrorKind :=
  | InvalidId            (* 400 Invalid product ID *)
  | ProductNotFound      (* 404 Product not found. *)
  | InvalidQuantity      (* 400 Quantity must be a positive integer. *)
  | InsufficientStock    (* 400 Insufficient stock / Cannot add more items *)
  | QuantityRequired     (* 400 Quantity is required for update operation. *)
  | NotFound             (* 404 Item not found in cart. *)
  | AlreadyEmpty.        (* 400 Cart is already empty. *)

Record CartData := mkData {
  cart : list CartItem.t;
  total : Number.t;
  itemCount : nat;
  removedItem : option CartItem.t
}.

Inductive Response :=
  | Success (status : Z) (data : CartData)
  | Failure (status : Z) (error : ErrorKind).

(** The [data] object the cart handlers build from the cart array. *)
Definition cartData (cart : list CartItem.t) (removed : option CartItem.t) : CartData :=
  mkData cart (Number.round2 (calculateCartTotal cart)) (length cart) removed.

(** ** Middleware *)

(** [validateProductId]: answers itself, or passes [req.product] on. *)
Definition validateProductId (productId : string) : Response + Product.t :=
  if bool_decide (productId = "") || isNaN (parseInt productId)
  then inl (Failure 400 InvalidId)
  else match findProductById productId with
       | None => inl (Failure 404 ProductNotFound)
       | Some product => inr product
       end.

(** [validateQuantity]: answers itself ([Some]), or calls [next()]. *)
Definition validateQuantity (quantity : option JsValue) : option Response :=
  match quantity with
  | None => None
  | Some (JInteger z) => if z <=? 0 then Some (Failure 400 InvalidQuantity) else None
  | Some _ => Some (Failure 400 InvalidQuantity)
  end.

(** The quantity a handler reads after [validateQuantity] let the request
    through: [undefined] ([None]) or an integer. *)
Definition quantityOf (quantity : option JsValue) : option Z :=
  match quantity with
  | Some (JInteger z) => Some z
  | _ => None
  end.

(** [generateSessionId]: the header if it is there and not empty, else a new
    identifier [uuid] from [uuidv4()]. *)
Definition generateSessionId (header : option string) (uuid : string) : string :=
  match header with
  | Some s => if bool_decide (s = "") then uuid else s
  | None => uuid
  end.

(** ** Cart handlers *)

(** POST /api/cart/:productId *)
Definition addItem (sessionId : string) (product : Product.t)
    (quantity : option Z) (st : Store) : Response * Store :=
  let quantity := default 1 quantity in
  let '(c, st) := getOrCreateCart sessionId st in
  let cart := deref st c in
  if quantity >? Product.stock product
  then (Failure 400 InsufficientStock, st)
  else
    match list_find (λ item, CartItem.id item = Product.id product) cart with
    | Some (existingItemIndex, existing) =>
        let newQuantity := CartItem.quantity existing + quantity in
        if newQuantity >? Product.stock product
        then (Failure 400 InsufficientStock, st)
        else
          let cart := <[existingItemIndex := CartItem.setQuantity existing newQuantity]> cart in
          (Success 201 (cartData cart None), assign st c cart)
    | None =>
        let cart := cart ++ [CartItem.mk (Product.id product) (Product.name product)
                               (Product.price product) (Product.image product) quantity] in
        (Success 201 (cartData cart None), assign st c cart)
    end.

(** GET /api/cart *)
Definition getCart (sessionId : string) (st : Store) : Response * Store :=
  let '(c, st) := getOrCreateCart sessionId st in
  (Success 200 (cartData (deref st c) None), st).

(** [!quantity] is false exactly for a number other than zero. *)
Definition truthy (quantity : option Z) : bool :=
  match quantity with
  | Some z => negb (z =? 0)
  | None => false
  end.

(** PUT /api/cart/:productId *)
Definition updateItem (sessionId : string) (product : Product.t)
    (quantity : option Z) (st : Store) : Response * Store :=
  let '(c, st) := getOrCreateCart sessionId st in
  let cart := deref st c in
  if negb (truthy quantity)
  then (Failure 400 QuantityRequired, st)
  else
    let quantity := default 0 quantity in
    match list_find (λ item, CartItem.id item = Product.id product) cart with
    | None => (Failure 404 NotFound, st)
    | Some (itemIndex, item) =>
        if quantity >? Product.stock product
        then (Failure 400 InsufficientStock, st)
        else
          let cart := <[itemIndex := CartItem.setQuantity item quantity]> cart in
          (Success 200 (cartData cart None), assign st c cart)
    end.

(** DELETE /api/cart/:productId *)
Definition removeItem (sessionId : string) (productId : string)
    (st : Store) : Response * Store :=
  let '(c, st) := getOrCreateCart sessionId st in
  let cart := deref st c in
  if bool_decide (productId = "") || isNaN (parseInt productId)
  then (Failure 400 InvalidId, st)
  else
    match list_find (λ item, strictEq (CartItem.id item) (parseInt productId)) cart with
    | None => (Failure 404 NotFound, st)
    | Some (itemIndex, removed) =>
        let cart := delete itemIndex cart in
        (Success 200 (cartData cart (Some removed)), assign st c cart)
    end.

(** DELETE /api/cart *)
Definition clearCart (sessionId : string) (st : Store) : Response * Store :=
  let '(c, st) := getOrCreateCart sessionId st in
  let cart := deref st c in
  if bool_decide (length cart = 0%nat)
  then (Failure 400 AlreadyEmpty, st)
  else
    let '(l, st) := allocArray st in
    (Success 200 (mkData [] Number.zero 0 None), cartsSet st sessionId l).

(** The five operations of the cart store, as the handlers perform them. *)
Inductive Operation :=
  | OpGetCart
  | OpAddItem (product : Product.t) (quantity : option Z)
  | OpUpdateItem (product : Product.t) (quantity : option Z)
  | OpRemoveItem (productId : string)
  | OpClearCart.

Definition perform (op : Operation) (sessionId : string) (st : Store)
    : Response * Store :=
  match op with
  | OpGetCart => getCart sessionId st
  | OpAddItem product quantity => addItem sessionId product quantity st
  | OpUpdateItem product quantity => updateItem sessionId product quantity st
  | OpRemoveItem productId => removeItem sessionId productId st
  | OpClearCart => clearCart sessionId st
  end.

(** ** Routes: the middleware chain in front of each handler *)

Inductive Request :=
  | GetCart (header : option string) (uuid : string)
  | PostCart (header : option string) (uuid : string)
      (productId : string) (quantity : option JsValue)
  | PutCart (header : option string) (uuid : string)
      (productId : string) (quantity : option JsValue)
  | DeleteCartItem (header : option string) (uuid : string) (productId : string)
  | DeleteCart (header : option string) (uuid : string).

(** The session a request is served under. *)
Definition sessionOf (req : Request) : string :=
  match req with
  | GetCart h u | PostCart h u _ _ | PutCart h u _ _
  | DeleteCartItem h u _ | DeleteCart h u => generateSessionId h u
  end.

Definition handle (req : Request) (st : Store) : Response * Store :=
  let sessionId := sessionOf req in
  match req with
  | GetCart _ _ => getCart sessionId st
  | PostCart _ _ productId quantity =>
      match validateProductId productId with
      | inl r => (r, st)
      | inr product =>
          match validateQuantity quantity with
          | Some r => (r, st)
          | None => addItem sessionId product (quantityOf quantity) st
          end
      end
  | PutCart _ _ productId quantity =>
      match validateProductId productId with
      | inl r => (r, st)
      | inr product =>
          match validateQuantity quantity with
          | Some r => (r, st)
          | None => updateItem sessionId product (quantityOf quantity) st
          end
      end
  | DeleteCartItem _ _ productId => removeItem sessionId productId st
  | DeleteCart _ _ => clearCart sessionId st
  end.

(** Stores the server can be in: those reached from the empty map by
    serving requests one after the other. *)
Inductive reachable : Store → Prop :=
  | reachable_init : reachable emptyStore
  | reachable_step req st :
      reachable st → reachable (handle req st).2.

(** ** Product listing

    The numbers of the query string, [page] and [limit], are rationals, with
    exact arithmetic: this is what JavaScript computes as long as the values
    are integers below 2^53 or binary fractions of a few bits. *)

Record Query := mkQuery {
  page : option Q;
  limit : option Q;
  search : option string
}.

(** ToIntegerOrInfinity of a finite number: the fraction is dropped. *)
Definition toIntegerOrInfinity (x : Q) : Z := Z.quot (Qnum x) (Zpos (Qden x)).

(** [Array.prototype.slice(start, end)]: positions are made integers,
    negative positions count from the end of the array, and positions
    outside it are clamped. *)
Definition slice {A} (l : list A) (start end_ : Q) : list A :=
  let len := Z.of_nat (length l) in
  let relativeStart := toIntegerOrInfinity start in
  let k := if relativeStart <? 0 then Z.max (len + relativeStart) 0
           else Z.min relativeStart len in
  let relativeEnd := toIntegerOrInfinity end_ in
  let final := if relativeEnd <? 0 then Z.max (len + relativeEnd) 0
               else Z.min relativeEnd len in
  let count := Z.max (final - k) 0 in
  take (Z.to_nat count) (drop (Z.to_nat k) l).

(** The value of [Math.ceil(a / b)] for an integer [a >= 0]. *)
Inductive Ceil :=
  | CeilInt (z : Z)
  | CeilInfinity
  | CeilNaN.

Definition ceilDiv (a : Z) (b : Q) : Ceil :=
  if Qeq_bool b 0 then (if a =? 0 then CeilNaN else CeilInfinity)
  else CeilInt (Qceiling (inject_Z a / b)).

(** [x < y] on numbers. *)
Definition ltNumber (x y : Q) : bool := negb (Qle_bool y x).

Record Pagination := mkPagination {
  currentPage : Z;
  totalPages : Ceil;
  totalProducts : nat;
  hasNext : bool;
  hasPrev : bool
}.

Record ProductsData := mkProductsData {
  productsOut : list Product.t;
  pagination : Pagination
}.

(** The products the search keeps. *)
Definition filterProducts (catalog : list Product.t) (search : option string)
    : list Product.t :=
  match search with
  | None => catalog
  | Some s =>
      if bool_decide (s = "") then catalog
      else
        List.filter
          (λ product,
             includes (toLowerCase (Product.name product)) (toLowerCase s) ||
             includes (toLowerCase (Product.description product)) (toLowerCase s))
          catalog
  end.

(** GET /api/products, over a catalogue.  [currentPage] is [parseInt(page)]
    for a page written in plain decimal notation. *)
Definition listProductsOf (catalog : list Product.t) (query : Query) : ProductsData :=
  let page := default 1%Q (page query) in
  let limit := default 10%Q (limit query) in
  let filteredProducts := filterProducts catalog (search query) in
  let startIndex := ((page - 1) * limit)%Q in
  let endIndex := (page * limit)%Q in
  let paginatedProducts := slice filteredProducts startIndex endIndex in
  mkProductsData paginatedProducts
    (mkPagination (toIntegerOrInfinity page)
       (ceilDiv (Z.of_nat (length filteredProducts)) limit)
       (length filteredProducts)
       (ltNumber endIndex (inject_Z (Z.of_nat (length filteredProducts))))
       (ltNumber 0 startIndex)).

Definition listProducts : Query → ProductsData := listProductsOf products.

(** GET /api/products/:productId *)
Definition getProduct (productId : string) : Response + Product.t :=
  validateProductId productId.

(** * Vocabulary of the properties *)

(** ** Well-formed stores and the frame of a handler

    A handler fetches the array of its session, answers from its contents
    and sometimes writes the array back.  [onCart] is that frame; each
    [..Body] is a handler seen as a function of the cart contents. *)

(** Every reference of the map points to an array, and no two sessions hold
    the same reference. *)
Record wf (st : Store) : Prop := mkWf {
  wf_alloc : ∀ s l, carts st !! s = Some l → is_Some (arrays st !! l);
  wf_inj : ∀ s1 s2 l, carts st !! s1 = Some l → carts st !! s2 = Some l → s1 = s2
}.

(** Fetch the array of the session, run the body on its contents, write back
    what the body returns, if anything. *)
Definition onCart (sessionId : string)
    (body : list CartItem.t → Response * option (list CartItem.t))
    (st : Store) : Response * Store :=
  let '(c, st) := getOrCreateCart sessionId st in
  match body (deref st c) with
  | (r, Some cart) => (r, assign st c cart)
  | (r, None) => (r, st)
  end.

(** POST /api/cart/:productId, on the cart contents. *)
Definition addBody (product : Product.t) (quantity : option Z)
    (cart : list CartItem.t) : Response * option (list CartItem.t) :=
  let quantity := default 1 quantity in
  if quantity >? Product.stock product then (Failure 400 InsufficientStock, None)
  else
    match list_find (λ item, CartItem.id item = Product.id product) cart with
    | Some (i, existing) =>
        if CartItem.quantity existing + quantity >? Product.stock product
        then (Failure 400 InsufficientStock, None)
        else
          let cart :=
            <[i := CartItem.setQuantity existing (CartItem.quantity existing + quantity)]> cart in
          (Success 201 (cartData cart None), Some cart)
    | None =>
        let cart := cart ++ [CartItem.mk (Product.id product) (Product.name product)
                               (Product.price product) (Product.image product) quantity] in
        (Success 201 (cartData cart None), Some cart)
    end.

(** GET /api/cart, on the cart contents. *)
Definition getBody (cart : list CartItem.t) : Response * option (list CartItem.t) :=
  (Success 200 (cartData cart None), None).

(** PUT /api/cart/:productId, on the cart contents. *)
Definition updateBody (product : Product.t) (quantity : option Z)
    (cart : list CartItem.t) : Response * option (list CartItem.t) :=
  if negb (truthy quantity) then (Failure 400 QuantityRequired, None)
  else
    match list_find (λ item, CartItem.id item = Product.id product) cart with
    | None => (Failure 404 NotFound, None)
    | Some (i, item) =>
        if default 0 quantity >? Product.stock product
        then (Failure 400 InsufficientStock, None)
        else
          let cart := <[i := CartItem.setQuantity item (default 0 quantity)]> cart in
          (Success 200 (cartData cart None), Some cart)
    end.

(** DELETE /api/cart/:productId, on the cart contents. *)
Definition removeBody (productId : string)
    (cart : list CartItem.t) : Response * option (list CartItem.t) :=
  if bool_decide (productId = "") || isNaN (parseInt productId)
  then (Failure 400 InvalidId, None)
  else
    match list_find (λ item, strictEq (CartItem.id item) (parseInt productId)) cart with
    | None => (Failure 404 NotFound, None)
    | Some (i, removed) =>
        (Success 200 (cartData (delete i cart) (Some removed)), Some (delete i cart))
    end.

(** The body of each operation that works on the array of the session. *)
Definition bodyOf (op : Operation)
    : option (list CartItem.t → Response * option (list CartItem.t)) :=
  match op with
  | OpGetCart => Some getBody
  | OpAddItem product quantity => Some (addBody product quantity)
  | OpUpdateItem product quantity => Some (updateBody product quantity)
  | OpRemoveItem productId => Some (removeBody productId)
  | OpClearCart => None
  end.

(** ** Carts *)

(** The line item [addItem] pushes for a product. *)
Definition snapshot (product : Product.t) (quantity : Z) : CartItem.t :=
  CartItem.mk (Product.id product) (Product.name product)
    (Product.price product) (Product.image product) quantity.

(** A line item made from a catalogue product, with a quantity the stock
    allows. *)
Definition goodItem (item : CartItem.t) : Prop :=
  ∃ product q, product ∈ products ∧ item = snapshot product q ∧
               1 ≤ q ≤ Product.stock product.

(** A cart of snapshots, one per product at most. *)
Definition goodCart (cart : list CartItem.t) : Prop :=
  NoDup (CartItem.id <$> cart) ∧ Forall goodItem cart.

(** Quantities that pass [validateQuantity]: none, or a positive integer. *)
Definition validQuantity (quantity : option Z) : Prop :=
  match quantity with
  | Some z => 0 < z
  | None => True
  end.

(** At most one line item per product id, and no line item holds more than
    the stock of the catalogue product it refers to. *)
Definition cartInvariant (cart : list CartItem.t) : Prop :=
  NoDup (CartItem.id <$> cart) ∧
  Forall (λ item, ∃ product, product ∈ products ∧
                    Product.id product = CartItem.id item ∧
                    CartItem.quantity item ≤ Product.stock product) cart.

(** ** Decimal numerals *)

Definition digitChar (d : Z) : ascii := ascii_of_N (Z.to_N (48 + d)).

Fixpoint decimalDigits (fuel : nat) (n : Z) (acc : string) : string :=
  match fuel with
  | O => acc
  | S fuel =>
      let acc := String (digitChar (n mod 10)) acc in
      if n <? 10 then acc else decimalDigits fuel (n / 10) acc
  end.

(** The decimal numeral of a natural number, as [String(n)] prints it. *)
Definition toDecimal (n : Z) : string :=
  decimalDigits (S (Z.to_nat (Z.log2 n))) n "".

(** The strings that are the numeral of a positive integer. *)
Definition positiveInteger (s : string) : Prop :=
  ∃ n, 0 < n ∧ s = toDecimal n.

(** A string whose first character is a digit, and whose second one, if it
    has one, is a digit too. *)
Definition digitString (s : string) : Prop :=
  ∃ d r, 0 ≤ d < 10 ∧ s = String (digitChar d) r ∧
         match r with
         | String c _ => ∃ d', 0 ≤ d' < 10 ∧ c = digitChar d'
         | EmptyString => True
         end.

(** A string that is empty or starts with a digit. *)
Definition digitHead (s : string) : Prop :=
  match s with
  | String c _ => ∃ d, 0 ≤ d < 10 ∧ c = digitChar d
  | EmptyString => True
  end.

(** Case analysis on a digit [0 <= d < 10]. *)
Ltac digit_cases d :=
  let H := fresh in
  assert (H : d = 0 ∨ d = 1 ∨ d = 2 ∨ d = 3 ∨ d = 4 ∨ d = 5 ∨ d = 6 ∨ d = 7 ∨
              d = 8 ∨ d = 9) by lia;
  destruct H as [->|[->|[->|[->|[->|[->|[->|[->|[->| ->]]]]]]]]].

(** ** Positions of a list *)

(** The elements of a list at the positions [i] with [a <= i < b], in order:
    what "the slice [a, b)" of the list says. *)
Fixpoint elementsFrom {A} (i : Z) (l : list A) (a b : Z) : list A :=
  match l with
  | [] => []
  | x :: r =>
      if (a <=? i) && (i <? b) then x :: elementsFrom (i + 1) r a b
      else elementsFrom (i + 1) r a b
  end.

(** Positions count from 0. *)
Definition elementsBetween {A} (l : list A) (a b : Z) : list A :=
  elementsFrom 0 l a b.

(** ** Exact values of binary64 numbers and amounts in hundredths *)

(** The real number a Number stands for; every finite binary64 value is a
    multiple of 2^-1074. *)
Definition exactValue (x : Number.t) : Q :=
  match x with
  | S754_finite s m e => cond_Zopp s (Zpos m * 2 ^ (e + 1074)) # 2 ^ 1074
  | _ => 0
  end.

(** The sum over all line items of price times quantity, in exact
    arithmetic. *)
Definition exactSum (items : list CartItem.t) : Q :=
  foldr (λ item sum,
           exactValue (CartItem.price item) * inject_Z (CartItem.quantity item) + sum)%Q
        0%Q items.

(** Rounding to two decimals: the number of hundredths closest to [r]. *)
Definition roundCents (r : Q) : Z := Qfloor (100 * r + (1 # 2)).

(** The Number written with two decimals, [c / 100]. *)
Definition decimal2 (c : Z) : Number.t :=
  match c with
  | Zpos n => Number.of_ratio false n 100
  | Z0 => Number.zero
  | Zneg n => Number.of_ratio true n 100
  end.

(** A price in hundredths. *)
Definition priceCents (x : Number.t) : Z := roundCents (exactValue x).

(** The sum over all line items of the price in hundredths times the
    quantity. *)
Definition nominalCents (items : list CartItem.t) : Z :=
  foldr (λ item sum, priceCents (CartItem.price item) * CartItem.quantity item + sum)
        0 items.

(** The value of a finite, non-negative number, in units of 2^-1074. *)
Definition scaled (x : spec_float) : Z :=
  match x with
  | S754_finite false m e => Zpos m * 2 ^ (e + 1074)
  | _ => 0
  end.

(** Zero, or a positive finite number whose exponent is in range. *)
Definition okFloat (x : spec_float) : Prop :=
  match x with
  | S754_zero false => True
  | S754_finite false m e => -1074 ≤ e
  | _ => False
  end.

(** After [n] steps to the right, the record holds the quotient of [M] by
    [2^n] and tells where the remainder lies with respect to a half. *)
Definition shrInv (M : Z) (n : Z) (mrs : shr_record) : Prop :=
  0 ≤ shr_m mrs ∧
  ∃ rem, M = shr_m mrs * 2 ^ n + rem ∧ 0 ≤ rem < 2 ^ n ∧
         match shr_r mrs, shr_s mrs with
         | false, false => rem = 0
         | false, true => 0 < 2 * rem < 2 ^ n
         | true, false => 2 * rem = 2 ^ n
         | true, true => 2 ^ n < 2 * rem
         end.

(** What is checked, by evaluation, of the product of a catalogue price and
    a quantity: it is a positive number within 2^-21 hundredths of the
    nominal amount, and the price itself is within 2^-30 hundredths of its
    two decimals. *)
Definition termCheck (product : Product.t) (q : Z) : bool :=
  let c := priceCents (Product.price product) in
  match Number.mul (Product.price product) (Number.of_Z q) with
  | S754_finite false m e =>
      (-1074 <=? e) &&
      (2 ^ 21 * Z.abs (100 * (Zpos m * 2 ^ (e + 1074)) - c * q * 2 ^ 1074) <=? 2 ^ 1074) &&
      (0 <=? c * q) && (c * q <=? 10 ^ 7) && (q <=? 50) &&
      (2 ^ 30 * Z.abs (100 * scaled (Product.price product) - c * 2 ^ 1074) <=? 2 ^ 1074) &&
      (match Product.price product with S754_finite false _ _ => true | _ => false end)
  | _ => false
  end.

(** ** Stores and products used as examples *)

(** The first and the fourth product of the catalogue. *)
Definition iPhone : Product.t :=
  default (Product.mk 0 "" Number.zero "" "" 0) (products !! 0%nat).

Definition sony : Product.t :=
  default (Product.mk 0 "" Number.zero "" "" 0) (products !! 3%nat).

(** The store after session alice added two units of product 1. *)
Definition aliceStore : Store :=
  (handle (PostCart (Some "alice") "" "1" (Some (JInteger 2))) emptyStore).2.

(** The store after session carol added product 1 with no quantity given. *)
Definition carolStore : Store :=
  (handle (PostCart (Some "carol") "" "1" None) emptyStore).2.

(** The store after alice added products 1 and 4, and bob products 4 and 1. *)
Definition pairStore : Store :=
  let st := (handle (PostCart (Some "alice") "" "4" (Some (JInteger 3))) aliceStore).2 in
  let st := (handle (PostCart (Some "bob") "" "4" (Some (JInteger 3))) st).2 in
  (handle (PostCart (Some "bob") "" "1" (Some (JInteger 2))) st).2.

(** ** Pages of the listing and search strings *)

(** The query for page [p] of the products a search keeps, [l] to a page. *)
Definition pageQuery (search : option string) (p l : Z) : Query :=
  mkQuery (Some (inject_Z p)) (Some (inject_Z l)) search.

(** The products of the pages 1 to [n], one page after the other. *)
Fixpoint pagesUpTo (catalog : list Product.t) (search : option string) (l : Z)
    (n : nat) : list Product.t :=
  match n with
  | O => []
  | S n' =>
      pagesUpTo catalog search l n'
      ++ productsOut (listProductsOf catalog (pageQuery search (Z.of_nat n) l))
  end.

(** [sub] occurs in [s]. *)
Definition isSubstring (sub s : string) : Prop :=
  ∃ pre post, s = pre +:+ sub +:+ post.

(** A string of 7-bit characters. *)
Fixpoint isAscii (s : string) : Prop :=
  match s with
  | String c r => code c < 128 ∧ isAscii r
  | EmptyString => True
  end.

(** * Properties *)

(** ** The store: references are allocated and never shared *)

Lemma wf_empty : wf emptyStore.
Proof. split; simpl; intros *; rewrite lookup_empty; discriminate. Qed.

Lemma allocArray_fresh st : arrays st !! (allocArray st).1 = None.
Proof.
  simpl. apply (not_elem_of_dom (D:=gset loc)). apply is_fresh.
Qed.

(** Binding a session to a new array keeps the store well formed, gives the
    session the empty cart and leaves every other session as it was. *)
Lemma bind_new_array st sessionId :
  wf st →
  let st' := cartsSet (allocArray st).2 sessionId (allocArray st).1 in
  wf st' ∧
  carts st' !! sessionId = Some (allocArray st).1 ∧
  deref st' (allocArray st).1 = [] ∧
  ∀ s, s ≠ sessionId → cartOf st' s = cartOf st s.
Proof.
  intros [Ha Hi]. pose proof (allocArray_fresh st) as Hf. simpl in *.
  set (l := fresh (dom (arrays st))) in *.
  assert (Hold : ∀ s l', carts st !! s = Some l' → l' ≠ l).
  { intros s l' Hs ->. destruct (Ha _ _ Hs) as [x Hx]. congruence. }
  split_and!.
  - split; simpl.
    + intros s l'. rewrite lookup_insert. case_decide as Hd.
      * intros [= <-]. rewrite lookup_insert_eq. eauto.
      * intros Hs. rewrite lookup_insert_ne by (intros Heq; by eapply Hold). eauto.
    + intros s1 s2 l'. rewrite !lookup_insert.
      repeat case_decide; subst; try done.
      * intros [= <-] Hs. by destruct (Hold _ _ Hs).
      * intros Hs [= <-]. by destruct (Hold _ _ Hs).
      * eauto.
  - apply lookup_insert_eq.
  - unfold deref. simpl. by rewrite lookup_insert_eq.
  - intros s Hs. unfold cartOf, deref. simpl. rewrite lookup_insert_ne by done.
    destruct (carts st !! s) as [l'|] eqn:E; simpl; [|done].
    by rewrite lookup_insert_ne by (intros Heq; by eapply Hold).
Qed.

Lemma getOrCreateCart_spec sessionId st :
  wf st →
  let c := (getOrCreateCart sessionId st).1 in
  let st' := (getOrCreateCart sessionId st).2 in
  wf st' ∧
  carts st' !! sessionId = Some c ∧
  deref st' c = cartView st sessionId ∧
  ∀ s, s ≠ sessionId → cartOf st' s = cartOf st s.
Proof.
  intros Hwf. unfold getOrCreateCart, cartView, cartOf.
  destruct (carts st !! sessionId) as [l|] eqn:E; simpl.
  - by rewrite E.
  - destruct (bind_new_array st sessionId Hwf) as (? & ? & ? & ?). done.
Qed.

(** Updating the array of one session in place. *)
Lemma assign_spec st sessionId c cart :
  wf st → carts st !! sessionId = Some c →
  wf (assign st c cart) ∧
  cartOf (assign st c cart) sessionId = Some cart ∧
  ∀ s, s ≠ sessionId → cartOf (assign st c cart) s = cartOf st s.
Proof.
  intros [Ha Hi] Hc. split_and!.
  - split; simpl; [|done].
    intros s l Hs. rewrite lookup_insert. case_decide; eauto.
  - unfold cartOf, deref. simpl. rewrite Hc. simpl. by rewrite lookup_insert_eq.
  - intros s Hs. unfold cartOf, deref. simpl.
    destruct (carts st !! s) as [l|] eqn:E; simpl; [|done].
    rewrite lookup_insert_ne; [done|]. intros ->. eauto.
Qed.

Lemma cartView_of st s cart : cartOf st s = Some cart → cartView st s = cart.
Proof. unfold cartView. by intros ->. Qed.

(** ** What each handler does to the cart of its session

    Each handler is its body run in the frame [onCart]. *)

Lemma addItem_onCart sessionId product quantity st :
  addItem sessionId product quantity st = onCart sessionId (addBody product quantity) st.
Proof.
  unfold addItem, onCart, addBody.
  destruct (getOrCreateCart sessionId st) as [c st1].
  destruct (_ >? _); [done|].
  destruct (list_find _ _) as [[i existing]|]; [|done].
  by destruct (_ >? _).
Qed.

Lemma getCart_onCart sessionId st :
  getCart sessionId st = onCart sessionId getBody st.
Proof.
  unfold getCart, onCart, getBody. by destruct (getOrCreateCart sessionId st).
Qed.

Lemma updateItem_onCart sessionId product quantity st :
  updateItem sessionId product quantity st
  = onCart sessionId (updateBody product quantity) st.
Proof.
  unfold updateItem, onCart, updateBody.
  destruct (getOrCreateCart sessionId st) as [c st1].
  destruct (negb _); [done|].
  destruct (list_find _ _) as [[i item]|]; [|done].
  by destruct (_ >? _).
Qed.

Lemma removeItem_onCart sessionId productId st :
  removeItem sessionId productId st = onCart sessionId (removeBody productId) st.
Proof.
  unfold removeItem, onCart, removeBody.
  destruct (getOrCreateCart sessionId st) as [c st1].
  destruct (_ || _); [done|].
  by destruct (list_find _ _) as [[i item]|].
Qed.

(** The frame: the answer is computed from the cart the session is shown;
    the cart becomes what the body wrote, or stays; other sessions stay. *)
Lemma onCart_spec sessionId body st :
  wf st →
  let out := onCart sessionId body st in
  let res := body (cartView st sessionId) in
  wf out.2 ∧
  out.1 = res.1 ∧
  cartOf out.2 sessionId = Some (default (cartView st sessionId) res.2) ∧
  ∀ s, s ≠ sessionId → cartOf out.2 s = cartOf st s.
Proof.
  intros Hwf. unfold onCart.
  destruct (getOrCreateCart_spec sessionId st Hwf) as (Hwf1 & Hc & Hd & Hfr).
  destruct (getOrCreateCart sessionId st) as [c st1]. simpl in *.
  rewrite Hd. destruct (body (cartView st sessionId)) as [r [cart'|]]; simpl.
  - destruct (assign_spec st1 sessionId c cart' Hwf1 Hc) as (? & ? & Hfr').
    split_and!; try done. intros s Hs. rewrite Hfr' by done. by apply Hfr.
  - split_and!; try done. unfold cartOf. rewrite Hc. simpl. by rewrite Hd.
Qed.

Lemma clearCart_spec sessionId st :
  wf st →
  let out := clearCart sessionId st in
  wf out.2 ∧
  (out.1 = (if bool_decide (length (cartView st sessionId) = 0%nat)
            then Failure 400 AlreadyEmpty
            else Success 200 (mkData [] Number.zero 0 None))) ∧
  cartOf out.2 sessionId = Some [] ∧
  ∀ s, s ≠ sessionId → cartOf out.2 s = cartOf st s.
Proof.
  intros Hwf. unfold clearCart.
  destruct (getOrCreateCart_spec sessionId st Hwf) as (Hwf1 & Hc & Hd & Hfr).
  destruct (getOrCreateCart sessionId st) as [c st1]. simpl in *.
  rewrite Hd. case_bool_decide as Hlen.
  - simpl. split_and!; try done. unfold cartOf. rewrite Hc. simpl. rewrite Hd.
    by destruct (cartView st sessionId).
  - destruct (bind_new_array st1 sessionId Hwf1) as (? & Hc' & Hd' & Hfr').
    simpl in *. split_and!; try done.
    + unfold cartOf. simpl. rewrite lookup_insert_eq. simpl.
      unfold cartOf in Hc'. simpl in Hd'. by rewrite Hd'.
    + intros s Hs. rewrite Hfr' by done. by apply Hfr.
Qed.

(** Every operation keeps the store well formed and touches no session but
    its own. *)
Lemma perform_wf_frame op sessionId st :
  wf st →
  wf (perform op sessionId st).2 ∧
  ∀ s, s ≠ sessionId → cartOf (perform op sessionId st).2 s = cartOf st s.
Proof.
  intros Hwf. destruct op; simpl.
  - rewrite getCart_onCart. destruct (onCart_spec sessionId getBody st Hwf) as (?&?&?&?); done.
  - rewrite addItem_onCart.
    destruct (onCart_spec sessionId (addBody product quantity) st Hwf) as (?&?&?&?); done.
  - rewrite updateItem_onCart.
    destruct (onCart_spec sessionId (updateBody product quantity) st Hwf) as (?&?&?&?); done.
  - rewrite removeItem_onCart.
    destruct (onCart_spec sessionId (removeBody productId) st Hwf) as (?&?&?&?); done.
  - destruct (clearCart_spec sessionId st Hwf) as (?&?&?&?); done.
Qed.

(** A request either is answered by its middleware, leaving the store as it
    is, or performs one operation under its session. *)
Lemma handle_perform req st :
  (handle req st).2 = st ∨
  ∃ op, handle req st = perform op (sessionOf req) st.
Proof.
  destruct req; simpl.
  - right. by exists OpGetCart.
  - destruct (validateProductId productId) as [r|product]; [by left|].
    destruct (validateQuantity quantity); [by left|].
    right. by exists (OpAddItem product (quantityOf quantity)).
  - destruct (validateProductId productId) as [r|product]; [by left|].
    destruct (validateQuantity quantity); [by left|].
    right. by exists (OpUpdateItem product (quantityOf quantity)).
  - right. by exists (OpRemoveItem productId).
  - right. by exists OpClearCart.
Qed.

Lemma reachable_wf st : reachable st → wf st.
Proof.
  induction 1 as [|req st _ IH]; [apply wf_empty|].
  destruct (handle_perform req st) as [-> | [op ->]]; [done|].
  by apply perform_wf_frame.
Qed.

(** ** Line items are snapshots of catalogue products *)

Lemma products_ids : Product.id <$> products = [1; 2; 3; 4; 5].
Proof. reflexivity. Qed.

(** The ids of the catalogue are unique. *)
Lemma products_id_inj p1 p2 :
  p1 ∈ products → p2 ∈ products → Product.id p1 = Product.id p2 → p1 = p2.
Proof.
  unfold products. rewrite !elem_of_cons, !elem_of_nil.
  intros H1 H2 Hid.
  destruct H1 as [->|[->|[->|[->|[->|[]]]]]];
  destruct H2 as [->|[->|[->|[->|[->|[]]]]]];
  solve [reflexivity | discriminate Hid].
Qed.

Lemma ids_insert_same (cart : list CartItem.t) i item q :
  cart !! i = Some item →
  CartItem.id <$> <[i := CartItem.setQuantity item q]> cart = CartItem.id <$> cart.
Proof.
  intros Hi. rewrite list_fmap_insert. apply list_insert_id.
  rewrite list_lookup_fmap, Hi. reflexivity.
Qed.

Lemma validateQuantity_valid quantity :
  validateQuantity quantity = None → validQuantity (quantityOf quantity).
Proof.
  destruct quantity as [[]|]; simpl; try done.
  destruct (Z.leb_spec z 0); [done|]. intros _. lia.
Qed.

Lemma findProductById_Some productId product :
  findProductById productId = Some product ↔
  product ∈ products ∧ parseInt productId = Some (Product.id product).
Proof.
  unfold findProductById. split.
  - destruct (list_find _ _) as [[i p]|] eqn:E; simpl; [|done].
    intros [= ->]. apply list_find_Some in E as (Hi & Hp & _).
    split; [by eapply list_elem_of_lookup_2 | done].
  - intros [Hin Hp].
    destruct (list_find_elem_of (λ p, strictEq (Product.id p) (parseInt productId))
                products product Hin Hp) as [[i p] E].
    rewrite E. simpl. f_equal.
    apply list_find_Some in E as (Hi & Hp' & _).
    apply products_id_inj; [by eapply list_elem_of_lookup_2 | done |].
    unfold strictEq in *. congruence.
Qed.

Lemma validateProductId_inr productId product :
  validateProductId productId = inr product →
  product ∈ products ∧ parseInt productId = Some (Product.id product).
Proof.
  unfold validateProductId. destruct (_ || _); [done|].
  destruct (findProductById productId) as [p|] eqn:E; [|done].
  intros [= ->]. by apply findProductById_Some.
Qed.

Section BodiesKeepGoodCarts.
Variable cart : list CartItem.t.
Hypothesis Hgood : goodCart cart.

Lemma good_lookup i item :
  cart !! i = Some item → goodItem item.
Proof. destruct Hgood as [_ Hall]. intros Hi. by eapply Forall_lookup_1. Qed.

Lemma addBody_good product quantity cart' :
  product ∈ products → validQuantity quantity →
  (addBody product quantity cart).2 = Some cart' → goodCart cart'.
Proof.
  intros Hin Hq. unfold addBody.
  assert (1 ≤ default 1 quantity) as Hq1 by (destruct quantity; simpl in *; lia).
  destruct (Z.gtb_spec (default 1 quantity) (Product.stock product)); [done|].
  destruct (list_find _ cart) as [[i existing]|] eqn:E.
  - apply list_find_Some in E as (Hi & Hid & _).
    destruct (Z.gtb_spec (CartItem.quantity existing + default 1 quantity)
                (Product.stock product)); [done|].
    simpl. intros [= <-]. destruct Hgood as [Hnd Hall]. split.
    + by rewrite ids_insert_same.
    + apply Forall_insert; [done|].
      destruct (good_lookup _ _ Hi) as (p & q & Hp & -> & Hq').
      assert (p = product) as -> by (by apply products_id_inj).
      simpl in *. exists product, (q + default 1 quantity).
      split_and!; [done..|lia|lia].
  - apply list_find_None in E. simpl. intros [= <-].
    destruct Hgood as [Hnd Hall]. split.
    + rewrite fmap_app. apply NoDup_app. split_and!; [done| |apply NoDup_singleton].
      intros x Hx. simpl. rewrite list_elem_of_singleton. intros ->.
      apply list_elem_of_fmap in Hx as (item & Hid & Hitem).
      rewrite Forall_forall in E. by eapply E.
    + apply Forall_app. split; [done|]. apply Forall_singleton.
      exists product, (default 1 quantity). split_and!; [done..|lia|lia].
Qed.

Lemma updateBody_good product quantity cart' :
  product ∈ products → validQuantity quantity →
  (updateBody product quantity cart).2 = Some cart' → goodCart cart'.
Proof.
  intros Hin Hq. unfold updateBody.
  destruct quantity as [z|]; simpl in *; [|done].
  destruct (negb (negb (z =? 0))); [done|].
  destruct (list_find _ cart) as [[i item]|] eqn:E; [|done].
  apply list_find_Some in E as (Hi & Hid & _).
  destruct (Z.gtb_spec z (Product.stock product)); [done|].
  simpl. intros [= <-]. destruct Hgood as [Hnd Hall]. split.
  - by rewrite ids_insert_same.
  - apply Forall_insert; [done|].
    destruct (good_lookup _ _ Hi) as (p & q & Hp & -> & Hq').
    assert (p = product) as -> by (by apply products_id_inj).
    exists product, z. split_and!; [done..|lia|lia].
Qed.

Lemma removeBody_good productId cart' :
  (removeBody productId cart).2 = Some cart' → goodCart cart'.
Proof.
  unfold removeBody. destruct (_ || _); [done|].
  destruct (list_find _ cart) as [[i item]|] eqn:E; [|done].
  simpl. intros [= <-]. destruct Hgood as [Hnd Hall]. split.
  - rewrite list_fmap_delete. eapply sublist_NoDup; [done|apply sublist_delete].
  - by apply Forall_delete.
Qed.
End BodiesKeepGoodCarts.

Lemma goodCart_nil : goodCart [].
Proof. split; [apply NoDup_nil_2 | apply Forall_nil_2]. Qed.

(** Every cart of a store the server can be in is a good cart. *)
Lemma reachable_good st :
  reachable st → ∀ s cart, cartOf st s = Some cart → goodCart cart.
Proof.
  induction 1 as [|req st Hr IH]; intros s cart.
  { unfold cartOf. simpl. by rewrite lookup_empty. }
  pose proof (reachable_wf st Hr) as Hwf.
  assert (Hview : goodCart (cartView st (sessionOf req))).
  { unfold cartView. destruct (cartOf st (sessionOf req)) eqn:E; simpl;
      [by eapply IH | apply goodCart_nil]. }
  assert (Hbody : ∀ body,
    (∀ cart', (body (cartView st (sessionOf req))).2 = Some cart' → goodCart cart') →
    cartOf (onCart (sessionOf req) body st).2 s = Some cart → goodCart cart).
  { intros body Hb.
    destruct (onCart_spec (sessionOf req) body st Hwf) as (_ & _ & Hown & Hfr).
    destruct (decide (s = sessionOf req)) as [->|Hne].
    - rewrite Hown. intros [= <-].
      destruct ((body (cartView st (sessionOf req))).2) eqn:E; simpl; eauto.
    - rewrite Hfr by done. apply IH. }
  destruct req; simpl.
  - rewrite getCart_onCart. apply Hbody. by intros ?.
  - destruct (validateProductId productId) as [r|product] eqn:Ep; [apply IH|].
    destruct (validateQuantity quantity) eqn:Eq; [apply IH|].
    apply validateProductId_inr in Ep as [Hin _].
    apply validateQuantity_valid in Eq.
    rewrite addItem_onCart. apply Hbody. intros cart'. by apply addBody_good.
  - destruct (validateProductId productId) as [r|product] eqn:Ep; [apply IH|].
    destruct (validateQuantity quantity) eqn:Eq; [apply IH|].
    apply validateProductId_inr in Ep as [Hin _].
    apply validateQuantity_valid in Eq.
    rewrite updateItem_onCart. apply Hbody. intros cart'. by apply updateBody_good.
  - rewrite removeItem_onCart. apply Hbody. intros cart'. by apply removeBody_good.
  - destruct (clearCart_spec (generateSessionId header uuid) st Hwf)
      as (_ & _ & Hown & Hfr). simpl in *.
    destruct (decide (s = generateSessionId header uuid)) as [->|Hne].
    + rewrite Hown. intros [= <-]. apply goodCart_nil.
    + rewrite Hfr by done. apply IH.
Qed.

(** ** Sessions are isolated *)

(** C8.  In a store the server can be in, an operation performed under the
    session key [s1] leaves the cart stored under any other key [s2]
    unchanged, whatever the operation: viewing, adding, updating, removing
    or clearing.  The arrays of two sessions are never shared, so writing
    one in place cannot show through the other. *)
Theorem sessions_isolated st op s1 s2 :
  reachable st → s1 ≠ s2 →
  cartOf (perform op s1 st).2 s2 = cartOf st s2.
Proof.
  intros Hr Hne. apply reachable_wf in Hr.
  destruct (perform_wf_frame op s1 st Hr) as [_ Hfr]. apply Hfr. congruence.
Qed.

Lemma sessions_isolated_witness :
  cartOf (perform (OpAddItem iPhone (Some 3)) "bob" aliceStore).2 "alice"
  = cartOf aliceStore "alice".
Proof.
  apply sessions_isolated.
  - apply reachable_step, reachable_init.
  - discriminate.
Defined.

Example aliceStore_cart : cartOf aliceStore "alice" = Some [snapshot iPhone 2].
Proof. vm_compute. reflexivity. Qed.

(** ** The cart invariant *)

(** C3.  Every cart of every store reached by serving any sequence of
    requests (view, add, update, remove, clear, under any sessions) holds at
    most one line item per product id, and each line item's quantity is at
    most the stock of the catalogue product with that id. *)
Theorem reachable_cart_invariant st s cart :
  reachable st → cartOf st s = Some cart → cartInvariant cart.
Proof.
  intros Hr Hc. destruct (reachable_good st Hr s cart Hc) as [Hnd Hall].
  split; [done|]. eapply Forall_impl; [done|].
  intros item (product & q & Hin & -> & Hq). exists product. simpl.
  split_and!; [done..|lia].
Qed.

Lemma reachable_cart_invariant_witness : cartInvariant [snapshot iPhone 2].
Proof.
  apply (reachable_cart_invariant aliceStore "alice").
  - apply reachable_step, reachable_init.
  - vm_compute. reflexivity.
Defined.

(** ** The handlers, case by case *)

(** With one line item per id, the line item [findIndex] finds for an id is
    the line item with that id. *)
Lemma find_unique (cart : list CartItem.t) i item :
  NoDup (CartItem.id <$> cart) → cart !! i = Some item →
  list_find (λ x, CartItem.id x = CartItem.id item) cart = Some (i, item).
Proof.
  intros Hnd Hi. apply list_find_Some. split_and!; [done..|].
  intros j y Hj Hlt Hid.
  assert (j = i); [|lia].
  eapply NoDup_lookup; [done| |]; rewrite list_lookup_fmap.
  - rewrite Hj. simpl. by rewrite Hid.
  - by rewrite Hi.
Qed.

Lemma find_absent (cart : list CartItem.t) k :
  Forall (λ item, CartItem.id item ≠ k) cart →
  list_find (λ x, CartItem.id x = k) cart = None.
Proof. intros H. by apply list_find_None. Qed.

Lemma filter_absent (cart : list CartItem.t) k :
  Forall (λ item, CartItem.id item ≠ k) cart →
  filter (λ item, CartItem.id item = k) cart = [].
Proof.
  induction 1 as [|x l Hx _ IH]; [done|]. by rewrite filter_cons_False.
Qed.

Lemma reachable_view_good st s : reachable st → goodCart (cartView st s).
Proof.
  intros Hr. unfold cartView. destruct (cartOf st s) eqn:E; simpl.
  - by eapply reachable_good.
  - apply goodCart_nil.
Qed.

(** A body that writes nothing leaves every session with the cart it was
    shown before. *)
Lemma onCart_unchanged sessionId body st :
  wf st → (body (cartView st sessionId)).2 = None →
  ∀ s, cartView (onCart sessionId body st).2 s = cartView st s.
Proof.
  intros Hwf Hb s. destruct (onCart_spec sessionId body st Hwf) as (_ & _ & Hown & Hfr).
  destruct (decide (s = sessionId)) as [->|Hne].
  - unfold cartView at 1. rewrite Hown, Hb. done.
  - unfold cartView. by rewrite Hfr.
Qed.

(** With one line item per id, the line items with the id of the one at
    position [i] are that line item alone. *)
Lemma filter_unique (cart : list CartItem.t) : ∀ i item,
  NoDup (CartItem.id <$> cart) → cart !! i = Some item →
  filter (λ x, CartItem.id x = CartItem.id item) cart = [item].
Proof.
  induction cart as [|y cart IH]; intros i item Hnd Hi; [done|].
  rewrite fmap_cons in Hnd. apply NoDup_cons in Hnd as [Hy Hnd].
  destruct i as [|i]; simpl in Hi.
  - injection Hi as ->. rewrite filter_cons_True by done. f_equal.
    apply filter_absent, Forall_forall. intros x Hx Heq. apply Hy.
    rewrite <- Heq. by apply list_elem_of_fmap_2.
  - rewrite filter_cons_False; [by eapply IH|].
    intros Heq. apply Hy. rewrite Heq.
    apply list_elem_of_fmap_2. by eapply list_elem_of_lookup_2.
Qed.

(** Adding to a cart that holds a line item for the product adds to the
    quantity of that line item. *)
Lemma addItem_existing st sessionId product q i existing :
  wf st →
  let items := cartView st sessionId in
  let merged :=
    <[i := CartItem.setQuantity existing (CartItem.quantity existing + q)]> items in
  NoDup (CartItem.id <$> items) →
  items !! i = Some existing → CartItem.id existing = Product.id product →
  q ≤ Product.stock product →
  CartItem.quantity existing + q ≤ Product.stock product →
  (addItem sessionId product (Some q) st).1 = Success 201 (cartData merged None) ∧
  cartOf (addItem sessionId product (Some q) st).2 sessionId = Some merged ∧
  filter (λ item, CartItem.id item = Product.id product) merged
  = [CartItem.setQuantity existing (CartItem.quantity existing + q)].
Proof.
  intros Hwf items merged Hnd Hi Hid Hq Hsum. rewrite addItem_onCart.
  destruct (onCart_spec sessionId (addBody product (Some q)) st Hwf)
    as (_ & Hres & Hown & _).
  fold items in Hres, Hown.
  assert (Hb : addBody product (Some q) items
               = (Success 201 (cartData merged None), Some merged)).
  { unfold addBody. simpl. destruct (Z.gtb_spec q (Product.stock product)); [lia|].
    rewrite <- Hid, (find_unique _ i existing) by done.
    by destruct (Z.gtb_spec (CartItem.quantity existing + q)
                   (Product.stock product)); [lia|]. }
  rewrite Hb in Hres, Hown. split_and!; [done..|].
  rewrite <- Hid.
  apply (filter_unique merged i (CartItem.setQuantity existing _)).
  - unfold merged. by rewrite ids_insert_same.
  - apply list_lookup_insert_eq. by eapply lookup_lt_Some.
Qed.

(** C1.  Adding a product with quantity [q1] and then again with quantity
    [q2], where [q1 + q2] is within the stock, leaves exactly one line item
    for the product, with quantity [q1 + q2].  From a cart with no line item
    for the product, both calls succeed, the first one pushes the line item
    and the second one finds it and adds to it.  And in any cart where the
    line item of an earlier call is present with quantity [q1], the call
    with [q2] sets that line item to [q1 + q2] and pushes no second one. *)
Theorem addItem_twice_merges st sessionId product q1 q2 :
  reachable st → 0 < q1 → 0 < q2 → q1 + q2 ≤ Product.stock product →
  let items := cartView st sessionId in
  (Forall (λ item, CartItem.id item ≠ Product.id product) items →
   let first := addItem sessionId product (Some q1) st in
   let second := addItem sessionId product (Some q2) first.2 in
   let merged := items ++ [snapshot product (q1 + q2)] in
   first.1 = Success 201 (cartData (items ++ [snapshot product q1]) None) ∧
   second.1 = Success 201 (cartData merged None) ∧
   cartOf second.2 sessionId = Some merged ∧
   filter (λ item, CartItem.id item = Product.id product) merged
   = [snapshot product (q1 + q2)]) ∧
  (∀ i existing,
     items !! i = Some existing → CartItem.id existing = Product.id product →
     CartItem.quantity existing = q1 →
     let out := addItem sessionId product (Some q2) st in
     let merged := <[i := CartItem.setQuantity existing (q1 + q2)]> items in
     out.1 = Success 201 (cartData merged None) ∧
     cartOf out.2 sessionId = Some merged ∧
     length merged = length items ∧
     filter (λ item, CartItem.id item = Product.id product) merged
     = [CartItem.setQuantity existing (q1 + q2)]).
Proof.
  intros Hr Hq1 Hq2 Hstock items.
  pose proof (reachable_view_good st sessionId Hr) as [Hnd _].
  apply reachable_wf in Hr. fold items in Hnd. split.
  - intros Habs. simpl.
    assert (Hb1 : addBody product (Some q1) items
                  = (Success 201 (cartData (items ++ [snapshot product q1]) None),
                     Some (items ++ [snapshot product q1]))).
    { unfold addBody. simpl. destruct (Z.gtb_spec q1 (Product.stock product)); [lia|].
      by rewrite find_absent. }
    rewrite (addItem_onCart sessionId product (Some q1) st).
    destruct (onCart_spec sessionId (addBody product (Some q1)) st Hr)
      as (Hwf1 & Hres1 & Hown1 & _).
    fold items in Hres1, Hown1. rewrite Hb1 in Hres1, Hown1. simpl in Hres1, Hown1.
    pose proof (cartView_of _ _ _ Hown1) as Hview1.
    destruct (addItem_existing _ sessionId product q2 (length items)
                (snapshot product q1) Hwf1) as (Hres2 & Hown2 & Hone);
      rewrite ?Hview1.
    + rewrite fmap_app. apply NoDup_app. split_and!; [done| |apply NoDup_singleton].
      intros x Hx. simpl. rewrite list_elem_of_singleton. intros ->.
      apply list_elem_of_fmap in Hx as (item & Hid & Hitem).
      rewrite Forall_forall in Habs. by eapply Habs.
    + by apply list_lookup_middle.
    + done.
    + lia.
    + simpl. lia.
    + rewrite Hview1 in Hres2, Hown2, Hone. simpl in Hres2, Hown2, Hone.
      replace (length items) with (length items + 0)%nat in Hres2, Hown2, Hone by lia.
      rewrite insert_app_r in Hres2, Hown2, Hone. done.
  - intros i existing Hi Hid Hq out merged. subst out merged q1.
    destruct (addItem_existing st sessionId product q2 i existing Hr)
      as (Hres & Hown & Hone); try done; try lia.
    fold items in Hres, Hown, Hone. split_and!; try done.
    apply length_insert.
Qed.

Lemma addItem_twice_merges_witness :
  cartOf (addItem "alice" iPhone (Some 3)
            (addItem "alice" iPhone (Some 2) emptyStore).2).2 "alice"
  = Some [snapshot iPhone 5].
Proof.
  refine (proj1 (proj2 (proj2 (proj1
    (addItem_twice_merges emptyStore "alice" iPhone 2 3 reachable_init _ _ _) _)))).
  - lia.
  - lia.
  - vm_compute. discriminate.
  - vm_compute. constructor.
Defined.

(** C2.  [addItem] answers 400 Insufficient stock whenever the requested
    quantity (1 when none is given) exceeds the stock of the product, and
    whenever the cart holds a line item for the product whose quantity plus
    the requested one exceeds it; in both cases every session, the caller's
    included, is shown the same cart after the call as before. *)
Theorem addItem_insufficient_stock st sessionId product quantity :
  reachable st →
  (Product.stock product < default 1 quantity ∨
   ∃ existing, existing ∈ cartView st sessionId ∧
               CartItem.id existing = Product.id product ∧
               Product.stock product < CartItem.quantity existing + default 1 quantity) →
  (addItem sessionId product quantity st).1 = Failure 400 InsufficientStock ∧
  ∀ s, cartView (addItem sessionId product quantity st).2 s = cartView st s.
Proof.
  intros Hr Hcase. pose proof (reachable_view_good st sessionId Hr) as [Hnd _].
  apply reachable_wf in Hr. rewrite addItem_onCart.
  assert (Hb : addBody product quantity (cartView st sessionId)
               = (Failure 400 InsufficientStock, None)).
  { unfold addBody.
    destruct (Z.gtb_spec (default 1 quantity) (Product.stock product)); [done|].
    destruct Hcase as [?|(existing & Hin & Hid & Hlt)]; [lia|].
    apply list_elem_of_lookup in Hin as [i Hi].
    rewrite <- Hid, (find_unique _ i existing) by done.
    destruct (Z.gtb_spec (CartItem.quantity existing + default 1 quantity)
                (Product.stock product)); [done|lia]. }
  destruct (onCart_spec sessionId (addBody product quantity) st Hr) as (_ & Hres & _).
  split.
  - by rewrite Hres, Hb.
  - apply onCart_unchanged; [done|]. by rewrite Hb.
Qed.

Lemma addItem_insufficient_stock_witness :
  (addItem "alice" iPhone (Some 49) aliceStore).1 = Failure 400 InsufficientStock ∧
  ∀ s, cartView (addItem "alice" iPhone (Some 49) aliceStore).2 s = cartView aliceStore s.
Proof.
  apply addItem_insufficient_stock.
  - apply reachable_step, reachable_init.
  - right. exists (snapshot iPhone 2). split_and!.
    + vm_compute. apply list_elem_of_here.
    + reflexivity.
    + vm_compute. reflexivity.
Defined.

(** C4.  [updateItem] answers, in this order: 400 Quantity is required when
    the quantity is absent or zero; 404 Item not found when the cart has no
    line item for the product; 400 Insufficient stock when the quantity
    exceeds the stock; and otherwise succeeds, the line item of the product
    now holding exactly the given quantity, whatever it held before, and the
    rest of the cart untouched.  A failed update changes no cart. *)
Theorem updateItem_outcomes st sessionId product quantity :
  reachable st →
  let cart := cartView st sessionId in
  let out := updateItem sessionId product quantity st in
  (truthy quantity = false → out.1 = Failure 400 QuantityRequired) ∧
  (truthy quantity = true →
   Forall (λ item, CartItem.id item ≠ Product.id product) cart →
   out.1 = Failure 404 NotFound) ∧
  (∀ q i item,
     quantity = Some q → q ≠ 0 →
     cart !! i = Some item → CartItem.id item = Product.id product →
     if q >? Product.stock product
     then out.1 = Failure 400 InsufficientStock
     else out.1 = Success 200 (cartData (<[i := CartItem.setQuantity item q]> cart) None) ∧
          cartOf out.2 sessionId = Some (<[i := CartItem.setQuantity item q]> cart)) ∧
  (∀ status e, out.1 = Failure status e → ∀ s, cartView out.2 s = cartView st s).
Proof.
  intros Hr cart out. pose proof (reachable_view_good st sessionId Hr) as [Hnd _].
  apply reachable_wf in Hr. subst out. rewrite updateItem_onCart.
  destruct (onCart_spec sessionId (updateBody product quantity) st Hr)
    as (_ & Hres & Hown & _).
  fold cart in Hres, Hown, Hnd. rewrite Hres. split_and!.
  - intros Ht. unfold updateBody. by rewrite Ht.
  - intros Ht Habs. unfold updateBody. rewrite Ht. simpl. by rewrite find_absent.
  - intros q i item -> Hq Hi Hid. rewrite Hown. unfold updateBody. simpl.
    destruct (Z.eqb_spec q 0); [done|]. simpl.
    rewrite <- Hid, (find_unique _ i item) by done.
    by destruct (q >? Product.stock product).
  - intros status e Hfail. apply onCart_unchanged; [done|]. fold cart.
    revert Hfail. unfold updateBody.
    destruct (negb (truthy quantity)); [done|].
    destruct (list_find _ cart) as [[i item]|]; [|done].
    by destruct (_ >? _).
Qed.

Lemma updateItem_outcomes_witness :
  (updateItem "alice" iPhone (Some 7) aliceStore).1
  = Success 200 (cartData [snapshot iPhone 7] None) ∧
  cartOf (updateItem "alice" iPhone (Some 7) aliceStore).2 "alice"
  = Some [snapshot iPhone 7].
Proof.
  refine (proj1 (proj2 (proj2
    (updateItem_outcomes aliceStore "alice" iPhone (Some 7) _))) 7 0%nat
    (snapshot iPhone 2) eq_refl _ _ eq_refl).
  - apply reachable_step, reachable_init.
  - discriminate.
  - vm_compute. reflexivity.
Defined.

(** ** [parseInt] on decimal numerals *)

Lemma digitValue_digitChar d :
  0 ≤ d < 10 → digitValue 10 (digitChar d) = Some d.
Proof. intros Hd. digit_cases d; reflexivity. Qed.

Lemma digitsValue_snoc radix ds d :
  digitsValue radix (ds ++ [d]) = digitsValue radix ds * radix + d.
Proof. unfold digitsValue. by rewrite fold_left_app. Qed.

Lemma decimalDigits_S fuel n acc :
  decimalDigits (S fuel) n acc
  = if n <? 10 then String (digitChar (n mod 10)) acc
    else decimalDigits fuel (n / 10) (String (digitChar (n mod 10)) acc).
Proof. reflexivity. Qed.

(** Prepending the numeral of [n] to a string prepends its digits. *)
Lemma decimalDigits_prefix fuel : ∀ n acc,
  0 ≤ n < 10 ^ Z.of_nat (S fuel) → digitHead acc →
  ∃ ds, ds ≠ [] ∧ digitsValue 10 ds = n ∧
        digitsPrefix 10 (decimalDigits (S fuel) n acc) = ds ++ digitsPrefix 10 acc ∧
        digitString (decimalDigits (S fuel) n acc).
Proof.
  induction fuel as [|fuel IH]; intros n acc Hn Hacc;
    rewrite decimalDigits_S;
    assert (Hd : 0 ≤ n mod 10 < 10) by (apply Z.mod_pos_bound; lia);
    destruct (Z.ltb_spec n 10) as [Hlt|Hge].
  - exists [n]. split_and!; [done|unfold digitsValue; simpl; lia| |].
    + rewrite Z.mod_small by lia. simpl. by rewrite digitValue_digitChar by lia.
    + exists (n mod 10), acc. done.
  - simpl in Hn. lia.
  - exists [n]. split_and!; [done|unfold digitsValue; simpl; lia| |].
    + rewrite Z.mod_small by lia. simpl. by rewrite digitValue_digitChar by lia.
    + exists (n mod 10), acc. done.
  - destruct (IH (n / 10) (String (digitChar (n mod 10)) acc))
      as (ds & Hne & Hv & Hp & Hs).
    { split; [apply Z.div_pos; lia|].
      apply Z.div_lt_upper_bound; [lia|].
      replace (Z.of_nat (S (S fuel))) with (Z.succ (Z.of_nat (S fuel))) in Hn by lia.
      rewrite Z.pow_succ_r in Hn by lia. lia. }
    { simpl. eauto. }
    exists (ds ++ [n mod 10]). split_and!.
    + by destruct ds.
    + rewrite digitsValue_snoc, Hv. pose proof (Z.div_mod n 10). lia.
    + rewrite Hp. simpl. rewrite digitValue_digitChar by lia. by rewrite <- app_assoc.
    + done.
Qed.

Lemma log2_decimal_bound n : 0 ≤ n → n < 10 ^ Z.of_nat (S (Z.to_nat (Z.log2 n))).
Proof.
  intros Hn. destruct (Z.eq_dec n 0) as [->|Hne]; [done|].
  pose proof (Z.log2_nonneg n).
  replace (Z.of_nat (S (Z.to_nat (Z.log2 n)))) with (Z.succ (Z.log2 n)) by lia.
  destruct (Z.log2_spec n) as [_ Hlt]; [lia|].
  eapply Z.lt_le_trans; [done|].
  apply Z.pow_le_mono_l. lia.
Qed.

(** A string that starts with a digit, followed by nothing or by a digit,
    is read from its first character on, in radix 10. *)
Lemma parseInt_digitString s :
  digitString s →
  parseInt s = match digitsPrefix 10 s with
               | [] => None
               | ds => Some (digitsValue 10 ds)
               end.
Proof.
  intros (d & r & Hd & -> & Hr). unfold parseInt.
  assert (Ht : trimStart (String (digitChar d) r) = String (digitChar d) r)
    by (digit_cases d; reflexivity).
  rewrite Ht.
  assert (Hs : stripSign (String (digitChar d) r) = (1, String (digitChar d) r))
    by (digit_cases d; reflexivity).
  rewrite Hs.
  assert (Hx : stripHexPrefix (String (digitChar d) r) = (10, String (digitChar d) r)).
  { destruct r as [|c r']; [digit_cases d; reflexivity|].
    destruct Hr as (d' & Hd' & ->).
    digit_cases d; try reflexivity. digit_cases d'; reflexivity. }
  rewrite Hx. destruct (digitsPrefix 10 _); [done|]. f_equal. lia.
Qed.

(** [parseInt] reads the numeral of a natural number back. *)
Lemma parseInt_toDecimal n : 0 ≤ n → parseInt (toDecimal n) = Some n.
Proof.
  intros Hn. unfold toDecimal.
  destruct (decimalDigits_prefix (Z.to_nat (Z.log2 n)) n "")
    as (ds & Hne & Hv & Hp & Hs); [|done|].
  { split; [done|]. by apply log2_decimal_bound. }
  rewrite parseInt_digitString, Hp by done. simpl. rewrite app_nil_r.
  destruct ds; [done|]. by rewrite Hv.
Qed.

Example toDecimal_examples :
  toDecimal 0 = "0" ∧ toDecimal 5 = "5" ∧ toDecimal 999 = "999" ∧
  toDecimal 1000 = "1000" ∧ toDecimal 1234567890 = "1234567890".
Proof. repeat split; reflexivity. Qed.

(** ** Looking a product up *)

(** C6, as stated, fails: an input that is not the numeral of a positive
    integer can still find a product.  [parseInt] reads the digits a string
    starts with and ignores the rest, so ["1abc"] finds product 1. *)
Lemma findProductById_counterexample :
  ¬ positiveInteger "1abc" ∧ findProductById "1abc" = Some iPhone.
Proof.
  split; [|reflexivity].
  intros (n & Hn & Hs).
  assert (Hp : parseInt "1abc" = Some n) by (rewrite Hs; apply parseInt_toDecimal; lia).
  vm_compute in Hp. injection Hp as <-. vm_compute in Hs. discriminate.
Qed.

(** C6, amended.  [findProductById] is a total function: it returns a product
    exactly when [parseInt] reads an integer from the input (skipping white
    space, an optional sign and whatever follows the digits) and the
    catalogue has a product with that id, and then it returns that product;
    it returns nothing for every other input, in particular when the input
    starts with no digit.  On the numeral of a positive integer [n] it
    returns the product with id [n] exactly when there is one. *)
Theorem findProductById_spec id product :
  (findProductById id = Some product ↔
   product ∈ products ∧ parseInt id = Some (Product.id product)) ∧
  (findProductById id = None ↔
   ∀ p, p ∈ products → parseInt id ≠ Some (Product.id p)) ∧
  (∀ n, 0 < n → id = toDecimal n →
        (findProductById id = Some product ↔ product ∈ products ∧ Product.id product = n)).
Proof.
  split_and!.
  - apply findProductById_Some.
  - split.
    + intros Hnone p Hin Hp.
      assert (findProductById id = Some p) by (by apply findProductById_Some).
      congruence.
    + intros Hall. destruct (findProductById id) as [p|] eqn:E; [|done].
      apply findProductById_Some in E as [Hin Hp]. by destruct (Hall p Hin).
  - intros n Hn ->. rewrite findProductById_Some, parseInt_toDecimal by lia.
    split; intros [? ?]; split; congruence.
Qed.

Lemma findProductById_spec_witness :
  findProductById (toDecimal 1) = Some iPhone ↔ iPhone ∈ products ∧ Product.id iPhone = 1.
Proof.
  apply (proj2 (proj2 (findProductById_spec (toDecimal 1) iPhone)) 1); [lia|reflexivity].
Defined.

(** ** Removing a line item *)

(** C5, as stated, fails: ["-1"] is not a positive integer, but the handler
    does not answer 400 Invalid product ID; [parseInt] reads -1, no line item
    has that id, and the answer is 404 Item not found. *)
Lemma removeItem_counterexample :
  ¬ positiveInteger "-1" ∧ parseInt "-1" = Some (-1) ∧
  (removeItem "alice" "-1" aliceStore).1 = Failure 404 NotFound.
Proof.
  split; [|split; vm_compute; reflexivity].
  intros (n & Hn & Hs).
  assert (Hp : parseInt "-1" = Some n) by (rewrite Hs; apply parseInt_toDecimal; lia).
  vm_compute in Hp. injection Hp as <-. lia.
Qed.

(** C5, amended.  [removeItem] answers 400 Invalid product ID exactly when
    [parseInt] reads no integer from the product id (the id is empty or does
    not start, after white space and an optional sign, with a digit); when
    it reads [n], zero and negative values included, the answer is 404 Item
    not found if no line item has id [n], and otherwise the line item with
    id [n] is taken out of the cart and returned together with the cart that
    remains. *)
Theorem removeItem_outcomes st sessionId productId :
  reachable st →
  let cart := cartView st sessionId in
  let out := removeItem sessionId productId st in
  (out.1 = Failure 400 InvalidId ↔ parseInt productId = None) ∧
  (∀ n, parseInt productId = Some n →
        Forall (λ item, CartItem.id item ≠ n) cart →
        out.1 = Failure 404 NotFound ∧ ∀ s, cartView out.2 s = cartView st s) ∧
  (∀ n i item, parseInt productId = Some n →
        cart !! i = Some item → CartItem.id item = n →
        out.1 = Success 200 (cartData (delete i cart) (Some item)) ∧
        cartOf out.2 sessionId = Some (delete i cart)).
Proof.
  intros Hr cart out. pose proof (reachable_view_good st sessionId Hr) as [Hnd _].
  apply reachable_wf in Hr. subst out. rewrite removeItem_onCart.
  destruct (onCart_spec sessionId (removeBody productId) st Hr)
    as (_ & Hres & Hown & _).
  fold cart in Hres, Hown, Hnd. rewrite Hres.
  assert (Hguard : bool_decide (productId = "") || isNaN (parseInt productId)
                   = isNaN (parseInt productId)).
  { case_bool_decide as He; [|done]. by rewrite He. }
  split_and!.
  - unfold removeBody. rewrite Hguard.
    destruct (parseInt productId) as [n|]; simpl; [|done].
    split; [|done]. by destruct (list_find _ cart) as [[i item]|].
  - intros n Hp Habs.
    assert (Hb : removeBody productId cart = (Failure 404 NotFound, None)).
    { unfold removeBody. rewrite Hguard, Hp. simpl.
      rewrite (proj2 (list_find_None _ cart)); [done|].
      eapply Forall_impl; [done|]. unfold strictEq. naive_solver. }
    rewrite Hb. split; [done|].
    apply onCart_unchanged; [done|]. fold cart. by rewrite Hb.
  - intros n i item Hp Hi Hid. rewrite Hown. unfold removeBody.
    rewrite Hguard, Hp. simpl.
    assert (Hf : list_find (λ x, strictEq (CartItem.id x) (Some n)) cart = Some (i, item)).
    { pose proof (find_unique cart i item Hnd Hi) as Hf.
      apply list_find_Some in Hf as (? & ? & Hleast).
      apply list_find_Some. unfold strictEq. split_and!; [done|congruence|].
      intros j y Hj Hlt [= Hy]. eapply Hleast; [done..|congruence]. }
    by rewrite Hf.
Qed.

Lemma removeItem_outcomes_witness :
  (removeItem "alice" "1" aliceStore).1
  = Success 200 (cartData [] (Some (snapshot iPhone 2))) ∧
  cartOf (removeItem "alice" "1" aliceStore).2 "alice" = Some [].
Proof.
  refine (proj2 (proj2 (removeItem_outcomes aliceStore "alice" "1" _)) 1 0%nat
            (snapshot iPhone 2) eq_refl _ eq_refl).
  - apply reachable_step, reachable_init.
  - vm_compute. reflexivity.
Defined.

(** ** The item count *)

Lemma perform_onCart op body sessionId st :
  bodyOf op = Some body → perform op sessionId st = onCart sessionId body st.
Proof.
  destruct op; simpl; intros [= <-].
  - apply getCart_onCart.
  - apply addItem_onCart.
  - apply updateItem_onCart.
  - apply removeItem_onCart.
Qed.

(** A successful body answers with the cart it leaves behind, and counts its
    line items. *)
Lemma body_success op body items status d :
  bodyOf op = Some body → (body items).1 = Success status d →
  cart d = default items (body items).2 ∧ itemCount d = length (cart d).
Proof.
  destruct op; simpl; intros [= <-].
  - unfold getBody. simpl. by intros [= <- <-].
  - unfold addBody. destruct (_ >? _); [done|].
    destruct (list_find _ items) as [[i existing]|].
    + destruct (_ >? _); [done|]. simpl. by intros [= <- <-].
    + simpl. by intros [= <- <-].
  - unfold updateBody. destruct (negb _); [done|].
    destruct (list_find _ items) as [[i item]|]; [|done].
    destruct (_ >? _); [done|]. simpl. by intros [= <- <-].
  - unfold removeBody. destruct (_ || _); [done|].
    destruct (list_find _ items) as [[i item]|]; [|done].
    simpl. by intros [= <- <-].
Qed.

(** A successful operation answers with the cart its session now has, and
    with the number of its line items. *)
Lemma perform_success st op sessionId status d :
  wf st → (perform op sessionId st).1 = Success status d →
  itemCount d = length (cart d) ∧
  cartOf (perform op sessionId st).2 sessionId = Some (cart d).
Proof.
  intros Hwf.
  destruct (bodyOf op) as [body|] eqn:Eb.
  - rewrite (perform_onCart op body) by done.
    destruct (onCart_spec sessionId body st Hwf) as (_ & Hres & Hown & _).
    rewrite Hres, Hown. intros Hs.
    destruct (body_success op body _ status d Eb Hs) as [-> ?]. done.
  - destruct op; try done. simpl.
    destruct (clearCart_spec sessionId st Hwf) as (_ & Hres & Hown & _).
    rewrite Hres, Hown. case_bool_decide; [done|]. by intros [= <- <-].
Qed.

(** C10.  Whenever an operation succeeds, the [itemCount] of its response is
    the number of line items of the cart in the response, which is the cart
    the session now has: it counts line items, one per product, and not the
    quantities in them. *)
Theorem itemCount_counts_line_items st op sessionId status d :
  reachable st → (perform op sessionId st).1 = Success status d →
  itemCount d = length (cart d) ∧
  cartOf (perform op sessionId st).2 sessionId = Some (cart d).
Proof.
  intros Hr Hs. apply reachable_wf in Hr. by eapply perform_success.
Qed.

Lemma itemCount_counts_line_items_witness :
  itemCount (cartData [snapshot iPhone 5] None) = 1%nat ∧
  cartOf (perform (OpAddItem iPhone (Some 3)) "alice" aliceStore).2 "alice"
  = Some [snapshot iPhone 5].
Proof.
  refine (itemCount_counts_line_items aliceStore (OpAddItem iPhone (Some 3))
            "alice" 201 (cartData [snapshot iPhone 5] None) _ _).
  - apply reachable_step, reachable_init.
  - vm_compute. reflexivity.
Defined.

(** One line item holding five units counts as one item. *)
Example itemCount_not_quantity_sum :
  (perform (OpAddItem iPhone (Some 3)) "alice" aliceStore).1
  = Success 201 (cartData [snapshot iPhone 5] None) ∧
  itemCount (cartData [snapshot iPhone 5] None) = 1%nat.
Proof. split; vm_compute; reflexivity. Qed.

(** ** Pagination *)

(** The elements between two positions, by [take] and [drop]. *)
Lemma elementsFrom_take_drop {A} (l : list A) : ∀ i a b,
  elementsFrom i l a b
  = take (Z.to_nat (b - Z.max a i)) (drop (Z.to_nat (a - i)) l).
Proof.
  induction l as [|x r IH]; intros i a b; simpl.
  - by rewrite drop_nil, take_nil.
  - destruct (Z.leb_spec a i) as [Hai|Hai]; simpl.
    + replace (Z.to_nat (a - i)) with 0%nat by lia. simpl.
      destruct (Z.ltb_spec i b) as [Hib|Hib].
      * rewrite IH. replace (Z.to_nat (a - (i + 1))) with 0%nat by lia. simpl.
        replace (Z.to_nat (b - Z.max a i)) with (S (Z.to_nat (b - Z.max a (i + 1)))) by lia.
        done.
      * rewrite IH. replace (Z.to_nat (b - Z.max a i)) with 0%nat by lia.
        replace (Z.to_nat (b - Z.max a (i + 1))) with 0%nat by lia. done.
    + rewrite IH.
      replace (Z.to_nat (a - i)) with (S (Z.to_nat (a - (i + 1)))) by lia. simpl.
      by replace (Z.max a (i + 1)) with (Z.max a i) by lia.
Qed.

(** Arithmetic of the listing on integers. *)
Lemma startIndex_integer (p l : Z) :
  ((inject_Z p - 1) * inject_Z l)%Q = inject_Z ((p - 1) * l).
Proof. unfold Qminus, Qplus, Qmult, Qopp, inject_Z. simpl. f_equal. ring. Qed.

Lemma endIndex_integer (p l : Z) : (inject_Z p * inject_Z l)%Q = inject_Z (p * l).
Proof. reflexivity. Qed.

Lemma toIntegerOrInfinity_integer z : toIntegerOrInfinity (inject_Z z) = z.
Proof. unfold toIntegerOrInfinity. simpl. apply Z.quot_1_r. Qed.

Lemma ltNumber_integer a b : ltNumber (inject_Z a) (inject_Z b) = bool_decide (a < b).
Proof.
  unfold ltNumber, Qle_bool. simpl. rewrite !Z.mul_1_r.
  destruct (Z.leb_spec b a); simpl; symmetry;
    [apply bool_decide_eq_false_2|apply bool_decide_eq_true_2]; lia.
Qed.

(** From a position inside or after the array on, [slice] returns the
    elements between the two positions. *)
Lemma slice_elementsBetween {A} (l : list A) (a b : Z) :
  0 ≤ a ∨ b = 0 → a ≤ b →
  slice l (inject_Z a) (inject_Z b) = elementsBetween l a b.
Proof.
  intros Hab Hle. unfold slice, elementsBetween.
  rewrite !toIntegerOrInfinity_integer, elementsFrom_take_drop.
  set (len := Z.of_nat (length l)).
  destruct (Z.ltb_spec a 0) as [Ha|Ha].
  - assert (b = 0) as -> by lia. simpl.
    replace (Z.to_nat (Z.max (Z.min 0 len - Z.max (len + a) 0) 0)) with 0%nat by lia.
    by replace (Z.to_nat (0 - Z.max a 0)) with 0%nat by lia.
  - destruct (Z.ltb_spec b 0); [lia|].
    replace (Z.max a 0) with a by lia. replace (a - 0) with a by lia.
    destruct (Z.le_gt_cases a len) as [Hal|Hal].
    + replace (Z.min a len) with a by lia.
      destruct (Z.le_gt_cases b len) as [Hbl|Hbl].
      * by replace (Z.max (Z.min b len - a) 0) with (b - a) by lia.
      * replace (Z.max (Z.min b len - a) 0) with (len - a) by lia.
        rewrite !take_ge; [done|rewrite length_drop; lia..].
    + rewrite !(drop_ge l); [by rewrite !take_nil|lia..].
Qed.

Lemma slice_length {A} (l : list A) (a b : Z) :
  a ≤ b → (a < 0 → b ≤ 0) →
  Z.of_nat (length (slice l (inject_Z a) (inject_Z b))) ≤ b - a.
Proof.
  intros Hle Hneg. unfold slice.
  rewrite !toIntegerOrInfinity_integer, length_take, length_drop.
  destruct (Z.ltb_spec a 0); destruct (Z.ltb_spec b 0); lia.
Qed.

(** C9, as stated, fails.  With page 2 and limit 1.5 the listing returns two
    products, more than the limit: the positions 1.5 and 3 are made the
    integers 1 and 3.  And with a negative page the positions count from the
    end of the array: page -1 with limit 2 returns the second and third of
    the five products, where the positions from -4 to -3 hold nothing. *)
Lemma listProducts_counterexample :
  Product.id <$> productsOut (listProducts (mkQuery (Some 2%Q) (Some (3 # 2)%Q) None))
  = [2; 3] ∧
  (3 # 2 < inject_Z (Z.of_nat (length
     (productsOut (listProducts (mkQuery (Some 2%Q) (Some (3 # 2)%Q) None))))))%Q ∧
  Product.id <$> productsOut (listProducts (mkQuery (Some (-1)%Q) (Some 2%Q) None))
  = [2; 3] ∧
  elementsBetween products ((-1 - 1) * 2) (-1 * 2) = [].
Proof. split_and!; vm_compute; reflexivity. Qed.

(** C9, amended.  For an integer limit above zero and an integer page from
    zero on, the listing returns the matching products at the positions from
    [(page-1)*limit] up to, not including, [page*limit].  For an integer
    limit above zero and any integer page, it returns at most [limit]
    products and reports [totalPages = ceil(matchCount/limit)],
    [totalProducts = matchCount], [hasNext = (page*limit < matchCount)] and
    [hasPrev = ((page-1)*limit > 0)].  Page and limit are 1 and 10 when the
    query has none. *)
Theorem listProducts_pagination catalog query (p l : Z) :
  let matching := filterProducts catalog (search query) in
  let matchCount := Z.of_nat (length matching) in
  let out := listProductsOf catalog query in
  default 1%Q (page query) = inject_Z p →
  default 10%Q (limit query) = inject_Z l →
  0 < l →
  (0 ≤ p →
   productsOut out = elementsBetween matching ((p - 1) * l) (p * l)) ∧
  Z.of_nat (length (productsOut out)) ≤ l ∧
  (∃ pages, totalPages (pagination out) = CeilInt pages ∧
            (pages - 1) * l < matchCount ≤ pages * l) ∧
  Z.of_nat (totalProducts (pagination out)) = matchCount ∧
  hasNext (pagination out) = bool_decide (p * l < matchCount) ∧
  hasPrev (pagination out) = bool_decide ((p - 1) * l > 0).
Proof.
  intros matching matchCount out Hp Hl Hlimit. subst out. unfold listProductsOf.
  rewrite Hp, Hl, startIndex_integer, endIndex_integer.
  fold matching. simpl. split_and!.
  - intros Hpage. apply slice_elementsBetween; [|nia].
    destruct (Z.eq_dec p 0) as [->|]; [by right|left; nia].
  - etrans; [apply slice_length|]; [nia| |lia].
    intros Hneg. assert (p ≤ 0) by nia. nia.
  - unfold ceilDiv. destruct l as [|l|l]; try lia. simpl.
    eexists. split; [done|]. fold matchCount.
    unfold Qceiling, Qfloor. simpl. rewrite Pos.mul_1_l, Z.mul_1_r.
    pose proof (Z.div_mod (- matchCount) (Z.pos l) ltac:(lia)).
    pose proof (Z.mod_pos_bound (- matchCount) (Z.pos l) ltac:(lia)). nia.
  - done.
  - fold matchCount. by rewrite ltNumber_integer.
  - change 0%Q with (inject_Z 0). rewrite ltNumber_integer.
    apply bool_decide_ext. lia.
Qed.

Lemma listProducts_pagination_witness :
  Product.id <$> productsOut (listProducts (mkQuery (Some 2%Q) (Some 2%Q) None)) = [3; 4] ∧
  totalPages (pagination (listProducts (mkQuery (Some 2%Q) (Some 2%Q) None))) = CeilInt 3.
Proof.
  pose proof (listProducts_pagination products (mkQuery (Some 2%Q) (Some 2%Q) None) 2 2
                eq_refl eq_refl ltac:(lia)) as (Hslice & _).
  split.
  - unfold listProducts. rewrite Hslice by lia. reflexivity.
  - reflexivity.
Defined.

(** ** Binary64 arithmetic on non-negative numbers

    The operations of [SpecFloat] round to nearest, ties to even.  This
    section bounds the rounding error of an addition of two non-negative
    numbers, from the definitions: the mantissa is shifted right bit by bit,
    the bits shifted out tell on which side of a half the remainder lies,
    and the rounded mantissa is within half a unit of the exact one. *)

(** A positive integer with [d] binary digits lies between [2^(d-1)] and
    [2^d]. *)
Lemma digits2_pos_bounds m :
  2 ^ (Zpos (digits2_pos m) - 1) ≤ Zpos m < 2 ^ Zpos (digits2_pos m).
Proof.
  induction m as [p IH|p IH|]; simpl digits2_pos.
  - rewrite Pos2Z.inj_succ.
    replace (Z.succ (Z.pos (digits2_pos p)) - 1) with (Z.succ (Z.pos (digits2_pos p) - 1)) by lia.
    rewrite !Z.pow_succ_r by lia. lia.
  - rewrite Pos2Z.inj_succ.
    replace (Z.succ (Z.pos (digits2_pos p)) - 1) with (Z.succ (Z.pos (digits2_pos p) - 1)) by lia.
    rewrite !Z.pow_succ_r by lia. lia.
  - simpl. lia.
Qed.

(** An invariant that each step carries from [n] to [n + 1] is carried by
    [p] steps from [n] to [n + p]. *)
Lemma iter_pos_invariant {A} (f : A → A) (P : Z → A → Prop) :
  (∀ n x, 0 ≤ n → P n x → P (n + 1) (f x)) →
  ∀ p n x, 0 ≤ n → P n x → P (n + Zpos p) (SpecFloat.iter_pos f p x).
Proof.
  intros Hstep. induction p as [p IH|p IH|]; intros n x Hn Hx; simpl.
  - replace (n + Z.pos p~1) with (n + 1 + Z.pos p + Z.pos p) by lia.
    apply IH; [lia|]. apply IH; [lia|]. by apply Hstep.
  - replace (n + Z.pos p~0) with (n + Z.pos p + Z.pos p) by lia.
    apply IH; [lia|]. by apply IH.
  - by apply Hstep.
Qed.

Lemma shrInv_step M n mrs :
  0 ≤ n → shrInv M n mrs → shrInv M (n + 1) (shr_1 mrs).
Proof.
  intros Hn (Hm & rem & HM & Hrem & Hloc).
  assert (Hp : 2 ^ (n + 1) = 2 * 2 ^ n) by (rewrite Z.pow_add_r by lia; lia).
  assert (0 < 2 ^ n) by (apply Z.pow_pos_nonneg; lia).
  destruct mrs as [m r s]. simpl in *.
  destruct m as [|[p|p|]|p]; try lia; unfold shrInv; simpl; (split; [lia|]).
  - exists rem. rewrite Hp. destruct r, s; simpl in *; lia.
  - exists (rem + 2 ^ n). rewrite Hp. destruct r, s; simpl in *; lia.
  - exists rem. rewrite Hp. destruct r, s; simpl in *; lia.
  - exists (rem + 2 ^ n). rewrite Hp. destruct r, s; simpl in *; lia.
Qed.

Lemma shrInv_iter M p :
  0 ≤ M → shrInv M (Zpos p) (SpecFloat.iter_pos shr_1 p (Build_shr_record M false false)).
Proof.
  intros HM.
  apply (iter_pos_invariant shr_1 (shrInv M) (shrInv_step M) p 0); [lia|].
  split; [done|]. exists 0. simpl. lia.
Qed.

(** Rounding the record to nearest, ties to even, is within half a unit. *)
Lemma round_nearest_even_bound M n mrs :
  0 ≤ n → shrInv M n mrs →
  let m := round_nearest_even (shr_m mrs) (loc_of_shr_record mrs) in
  shr_m mrs ≤ m ≤ shr_m mrs + 1 ∧ 2 * Z.abs (m * 2 ^ n - M) ≤ 2 ^ n.
Proof.
  intros Hn (Hm & rem & HM & Hrem & Hloc). destruct mrs as [m r s]. simpl in *.
  assert (0 < 2 ^ n) by (apply Z.pow_pos_nonneg; lia).
  destruct r, s; simpl; try destruct (Z.even m); split; lia.
Qed.

Lemma shr_nonpos mrs e n : n ≤ 0 → shr mrs e n = (mrs, e).
Proof. by destruct n as [|p|p]; [..|lia|]. Qed.

Lemma fexp_eq e : fexp 53 1024 e = Z.max (e - 53) (-1074).
Proof. reflexivity. Qed.

Lemma pow2_lt_inv a b : 0 ≤ b → 2 ^ a < 2 ^ b → a < b.
Proof. intros Hb. apply Z.pow_lt_mono_r_iff; lia. Qed.

Lemma pow2_le_lt_digits x d : 0 ≤ d → 2 ^ (d - 1) ≤ x < 2 ^ d → ∀ c, 0 ≤ c → 2 ^ (c - 1) ≤ x < 2 ^ c → c = d.
Proof.
  intros Hd [Hl Hu] c Hc [Hl' Hu'].
  assert (2 ^ (d - 1) < 2 ^ c) by lia.
  assert (2 ^ (c - 1) < 2 ^ d) by lia.
  apply pow2_lt_inv in H; [|lia]. apply pow2_lt_inv in H0; lia.
Qed.

(** Rounding a positive integer [M * 2^e] to the format: the result is the
    same number when [M] has at most 53 bits, and within one part in 2^52
    otherwise. *)
Lemma binary_round_aux_bound (M : positive) (e : Z) :
  -1074 ≤ e → e ≤ 970 → Zpos (digits2_pos M) + e ≤ 1023 →
  ∃ m' e', binary_round_aux 53 1024 false (Zpos M) e loc_Exact = S754_finite false m' e' ∧
           e ≤ e' ≤ 971 ∧
           (Zpos (digits2_pos M) ≤ 53 → m' = M ∧ e' = e) ∧
           2 ^ 52 * Z.abs (Zpos m' * 2 ^ (e' - e) - Zpos M) ≤ Zpos M.
Proof.
  intros Hemin He Hde. pose proof (digits2_pos_bounds M) as HdM.
  set (d := Zpos (digits2_pos M)) in *.
  destruct (Z.le_gt_cases d 53) as [Hd|Hd].
  - (* no bit is lost *)
    exists M, e. split_and!; [|lia|lia|done|].
    + unfold binary_round_aux, shr_fexp. simpl Zdigits2. fold d.
      rewrite fexp_eq, shr_nonpos by lia. simpl.
      fold d. rewrite fexp_eq, shr_nonpos by lia. simpl.
      by destruct (Z.leb_spec e (1024 - 53)); [|lia].
    + rewrite Z.sub_diag. simpl. lia.
  - (* [d - 53] bits are shifted out *)
    destruct (d - 53) as [|k|k] eqn:Ek; try lia.
    pose proof (shrInv_iter (Zpos M) k ltac:(lia)) as Hinv.
    pose proof (round_nearest_even_bound (Zpos M) (Zpos k) _ ltac:(lia) Hinv) as [Hm2 Hclose].
    destruct Hinv as (Hm1 & rem & HM & Hrem & _).
    assert (Hfirst : shr_fexp 53 1024 (Zpos M) e loc_Exact
                     = (SpecFloat.iter_pos shr_1 k (Build_shr_record (Zpos M) false false),
                        d + e - 53)).
    { unfold shr_fexp. simpl Zdigits2. fold d. rewrite fexp_eq.
      replace (Z.max (d + e - 53) (-1074) - e) with (Zpos k) by lia.
      simpl. f_equal. lia. }
    set (mrs := SpecFloat.iter_pos shr_1 k _) in *.
    set (m2 := round_nearest_even (shr_m mrs) (loc_of_shr_record mrs)) in *.
    simpl in Hm2, Hclose.
    assert (Hk : 2 ^ d = 2 ^ 53 * 2 ^ Zpos k).
    { rewrite <- Z.pow_add_r by lia. f_equal. lia. }
    assert (Hk' : 2 ^ (d - 1) = 2 ^ 52 * 2 ^ Zpos k).
    { rewrite <- Z.pow_add_r by lia. f_equal. lia. }
    assert (0 < 2 ^ Zpos k) by (apply Z.pow_pos_nonneg; lia).
    assert (Hm1' : 2 ^ 52 ≤ shr_m mrs < 2 ^ 53) by nia.
    destruct m2 as [|p2|p2] eqn:Ep2; try lia.
    pose proof (digits2_pos_bounds p2) as Hd2.
    destruct (Z.eq_dec (Zpos p2) (2 ^ 53)) as [Hcarry|Hnocarry].
    + (* the mantissa rounded up to 2^53 *)
      assert (p2 = 9007199254740992%positive) as -> by lia.
      exists 4503599627370496%positive, (d + e - 53 + 1).
      split_and!; [|lia|lia|lia|].
      * unfold binary_round_aux. rewrite Hfirst. fold m2. rewrite Ep2.
        unfold shr_fexp.
        replace (Zdigits2 9007199254740992) with 54 by (vm_compute; reflexivity).
        rewrite fexp_eq.
        replace (Z.max (54 + (d + e - 53) - 53) (-1074) - (d + e - 53)) with 1 by lia.
        simpl. by destruct (Z.leb_spec (d + e - 53 + 1) (1024 - 53)); [|lia].
      * replace (d + e - 53 + 1 - e) with (Zpos k + 1) by lia.
        rewrite Z.pow_add_r by lia.
        change (Z.pos 4503599627370496 * (2 ^ Z.pos k * 2 ^ 1))
          with (2 ^ 52 * (2 ^ Z.pos k * 2)).
        change (2^53) with 9007199254740992 in *. change (2^52) with 4503599627370496 in *.
        nia.
    + assert (Zpos (digits2_pos p2) = 53) as Hd2'.
      { apply (pow2_le_lt_digits (Zpos p2)); [lia|lia|lia|done]. }
      exists p2, (d + e - 53). split_and!; [|lia|lia|lia|].
      * unfold binary_round_aux. rewrite Hfirst. fold m2. rewrite Ep2.
        unfold shr_fexp. simpl Zdigits2.
        rewrite Hd2', fexp_eq, shr_nonpos by lia. simpl.
        by destruct (Z.leb_spec (d + e - 53) (1024 - 53)); [|lia].
      * replace (d + e - 53 - e) with (Zpos k) by lia.
        change (2^53) with 9007199254740992 in *. change (2^52) with 4503599627370496 in *.
        nia.
Qed.

Lemma pos_iter_xO m d : Zpos (Pos.iter xO m d) = Zpos m * 2 ^ Zpos d.
Proof.
  induction d as [|d IH] using Pos.peano_ind.
  - simpl. lia.
  - rewrite Pos.iter_succ, Pos2Z.inj_succ, Z.pow_succ_r by lia.
    rewrite Pos2Z.inj_xO, IH. lia.
Qed.

Lemma shl_align_spec m e e' :
  (shl_align m e e').2 = Z.min e e' ∧
  Zpos (shl_align m e e').1 = Zpos m * 2 ^ (e - Z.min e e').
Proof.
  unfold shl_align. destruct (e' - e) as [|d|d] eqn:Ed; simpl.
  - replace (Z.min e e') with e by lia. rewrite Z.sub_diag. simpl. lia.
  - replace (Z.min e e') with e by lia. rewrite Z.sub_diag. simpl. lia.
  - replace (Z.min e e') with e' by lia. split; [done|].
    rewrite pos_iter_xO. f_equal. f_equal. lia.
Qed.

Lemma digits_le_of_bound m e T :
  -1074 ≤ e → Zpos m * 2 ^ (e + 1074) < 2 ^ (T + 1074) →
  Zpos (digits2_pos m) + e ≤ T.
Proof.
  intros He Hlt. pose proof (digits2_pos_bounds m) as [Hl _].
  set (d := Zpos (digits2_pos m)) in *.
  assert (0 < 2 ^ (e + 1074)) by (apply Z.pow_pos_nonneg; lia).
  assert (2 ^ (d - 1 + (e + 1074)) < 2 ^ (T + 1074)).
  { rewrite Z.pow_add_r by lia. nia. }
  destruct (Z.le_gt_cases (T + 1074) 0) as [Hneg|Hpos].
  - assert (2 ^ (T + 1074) ≤ 1).
    { destruct (Z.eq_dec (T + 1074) 0) as [->|]; [simpl; lia|].
      rewrite Z.pow_neg_r by lia. lia. }
    assert (0 < 2 ^ (d - 1 + (e + 1074))) by (apply Z.pow_pos_nonneg; lia). lia.
  - apply pow2_lt_inv in H0; lia.
Qed.

(** Adding two non-negative numbers: the result is within one part in 2^52
    of the exact sum. *)
Lemma SFadd_bound x y T :
  okFloat x → okFloat y → T ≤ 971 →
  scaled x + scaled y < 2 ^ (T + 1074) →
  okFloat (SFadd 53 1024 x y) ∧
  2 ^ 52 * Z.abs (scaled (SFadd 53 1024 x y) - (scaled x + scaled y))
  ≤ scaled x + scaled y.
Proof.
  intros Hx Hy HT Hlt.
  destruct x as [[]|[]| |[] mx ex], y as [[]|[]| |[] my ey]; try done; simpl in Hx, Hy.
  1-2: simpl; split; [done|];
    match goal with |- context [Z.abs ?t] => replace t with 0 by lia end;
    simpl; try lia;
    match goal with |- context [2 ^ ?k] =>
      assert (0 ≤ 2 ^ k) by (apply Z.pow_nonneg; lia) end; nia.
  (* two positive numbers *)
  -
    set (V := scaled (S754_finite false mx ex) + scaled (S754_finite false my ey)) in *.
    unfold SFadd. set (ez := Z.min ex ey).
    destruct (shl_align_spec mx ex ez) as [_ Ha].
    destruct (shl_align_spec my ey ez) as [_ Hb].
    replace (Z.min ex ez) with ez in Ha by lia.
    replace (Z.min ey ez) with ez in Hb by lia.
    set (a := (shl_align mx ex ez).1) in *. set (b := (shl_align my ey ez).1) in *.
    simpl cond_Zopp. change (Zpos a + Zpos b) with (Zpos (a + b)).
    unfold binary_normalize, binary_round.
    set (E := fexp 53 1024 (Zpos (digits2_pos (a + b)) + ez)).
    destruct (shl_align_spec (a + b) ez E) as [He' HM'].
    destruct (shl_align (a + b) ez E) as [M' e'] eqn:Eal. simpl in He', HM'.
    assert (HE : -1074 ≤ E) by (unfold E; rewrite fexp_eq; lia).
    assert (HV : Zpos M' * 2 ^ (e' + 1074) = V).
    { rewrite HM'. unfold V. simpl. rewrite Pos2Z.inj_add, Ha, Hb.
      rewrite <- !Z.mul_assoc, <- !Z.pow_add_r by lia.
      rewrite Z.mul_add_distr_r, <- !Z.mul_assoc, <- !Z.pow_add_r by lia.
      f_equal; f_equal; f_equal; lia. }
    pose proof (digits_le_of_bound M' e' T ltac:(lia) ltac:(lia)) as Hd.
    pose proof (Pos2Z.is_pos (digits2_pos M')).
    destruct (binary_round_aux_bound M' e' ltac:(lia) ltac:(lia) ltac:(lia))
      as (m'' & e'' & -> & He'' & _ & Hclose).
    split; [simpl; lia|].
    simpl scaled. rewrite <- HV.
    replace (e'' + 1074) with ((e'' - e') + (e' + 1074)) by lia.
    rewrite Z.pow_add_r, Z.mul_assoc, <- Z.mul_sub_distr_r by lia.
    assert (0 < 2 ^ (e' + 1074)) by (apply Z.pow_pos_nonneg; lia).
    rewrite Z.abs_mul, (Z.abs_eq (2 ^ _)) by lia. nia.
Qed.

(** ** The reported total *)

(** The prices of the catalogue, in hundredths. *)
Example priceCents_products :
  (λ product, priceCents (Product.price product)) <$> products
  = [99999; 89999; 199999; 39999; 59999].
Proof. vm_compute. reflexivity. Qed.

(** Every product of a catalogue price and a quantity the stock allows
    passes the check. *)
Lemma terms_checked :
  forallb (λ product, forallb (termCheck product) (seqZ 1 (Product.stock product)))
          products = true.
Proof. vm_compute. reflexivity. Qed.

Lemma goodItem_checked item :
  goodItem item →
  ∃ product, CartItem.price item = Product.price product ∧
             1 ≤ CartItem.quantity item ∧
             termCheck product (CartItem.quantity item) = true.
Proof.
  intros (product & q & Hin & -> & Hq). exists product. simpl.
  split_and!; [done|lia|].
  pose proof terms_checked as Hall. rewrite forallb_forall in Hall.
  apply list_elem_of_In, Hall in Hin. rewrite forallb_forall in Hin.
  apply Hin, list_elem_of_In, elem_of_seqZ. lia.
Qed.

(** The facts the check gives about a line item of a good cart. *)
Lemma goodItem_term item :
  goodItem item →
  let q := CartItem.quantity item in
  let c := priceCents (CartItem.price item) in
  let t := Number.mul (CartItem.price item) (Number.of_Z q) in
  okFloat t ∧
  2 ^ 21 * Z.abs (100 * scaled t - c * q * 2 ^ 1074) ≤ 2 ^ 1074 ∧
  0 ≤ c * q ≤ 10 ^ 7 ∧ 1 ≤ q ≤ 50 ∧
  2 ^ 30 * Z.abs (100 * scaled (CartItem.price item) - c * 2 ^ 1074) ≤ 2 ^ 1074 ∧
  exactValue (CartItem.price item) = scaled (CartItem.price item) # 2 ^ 1074.
Proof.
  intros Hgood. destruct (goodItem_checked item Hgood) as (product & Hp & Hq & Hc).
  simpl. rewrite Hp. unfold termCheck in Hc.
  destruct (Number.mul _ _) as [| | |[] m e]; try done.
  repeat (apply andb_prop in Hc as [Hc ?]).
  repeat match goal with H : (_ <=? _) = true |- _ => apply Z.leb_le in H end.
  destruct (Product.price product) as [| | |[] pm pe]; try discriminate H.
  split_and!; solve [assumption | reflexivity].
Qed.

(** A good cart has at most as many line items as the catalogue has
    products. *)
Lemma good_length items : goodCart items → Z.of_nat (length items) ≤ 5.
Proof.
  intros [Hnd Hall].
  assert (Hsub : CartItem.id <$> items ⊆+ Product.id <$> products).
  { apply NoDup_submseteq; [done|]. intros x Hx.
    apply list_elem_of_fmap in Hx as (item & -> & Hitem).
    rewrite Forall_forall in Hall.
    destruct (Hall item Hitem) as (product & q & Hin & -> & _).
    change (CartItem.id (snapshot product q)) with (Product.id product).
    by apply list_elem_of_fmap_2. }
  apply submseteq_length in Hsub. rewrite !length_fmap in Hsub.
  change (length products) with 5%nat in Hsub. lia.
Qed.

(** The running total stays within [k * 2^-20] hundredths of the nominal
    amount after [k] line items, for up to five of them. *)
Lemma fold_total_close items : ∀ acc k C,
  Forall goodItem items → okFloat acc →
  0 ≤ k → k + Z.of_nat (length items) ≤ 5 → 0 ≤ C ≤ k * 10 ^ 7 →
  2 ^ 20 * Z.abs (100 * scaled acc - C * 2 ^ 1074) ≤ k * 2 ^ 1074 →
  let acc' :=
    fold_left
      (λ total item,
         Number.add total
           (Number.mul (CartItem.price item) (Number.of_Z (CartItem.quantity item))))
      items acc in
  okFloat acc' ∧
  0 ≤ C + nominalCents items ≤ 5 * 10 ^ 7 ∧
  2 ^ 20 * Z.abs (100 * scaled acc' - (C + nominalCents items) * 2 ^ 1074)
  ≤ 5 * 2 ^ 1074.
Proof.
  assert (HD : 0 < 2 ^ 1074) by (apply Z.pow_pos_nonneg; lia).
  induction items as [|item items IH]; intros acc k C Hall Hacc Hk Hlen HC Hclose.
  - simpl in *. rewrite Z.add_0_r. split_and!; [done|lia|nia|nia].
  - apply Forall_cons in Hall as [Hitem Hall].
    destruct (goodItem_term item Hitem) as (Ht & Htc & Hcq & Hq & _).
    simpl fold_left. simpl nominalCents. simpl length in Hlen.
    set (t := Number.mul (CartItem.price item) (Number.of_Z (CartItem.quantity item))) in *.
    set (cq := priceCents (CartItem.price item) * CartItem.quantity item) in *.
    assert (HkD : 0 ≤ k * 2 ^ 1074 ≤ 4 * 2 ^ 1074) by nia.
    assert (HCD : 0 ≤ C * 2 ^ 1074 ≤ 10 ^ 7 * (k * 2 ^ 1074)) by nia.
    assert (HcD : 0 ≤ cq * 2 ^ 1074 ≤ 10 ^ 7 * 2 ^ 1074) by nia.
    assert (Hsum : scaled acc + scaled t < 2 ^ (20 + 1074)).
    { rewrite Z.pow_add_r by lia. change (2 ^ 20) with 1048576. change (10 ^ 7) with 10000000 in *.
      clear IH. revert Hclose Htc HkD HCD HcD HD.
      generalize (2 ^ 1074) (k * 2 ^ 1074) (C * 2 ^ 1074) (cq * 2 ^ 1074) (scaled acc) (scaled t).
      intros. lia. }
    destruct (SFadd_bound acc t 20 Hacc Ht ltac:(lia) Hsum) as [Hok Hadd].
    change (SFadd 53 1024 acc t) with (Number.add acc t) in Hok, Hadd.
    rewrite Z.add_assoc.
    apply (IH (Number.add acc t) (k + 1) (C + cq)); [done|done|lia|lia|lia|].
    rewrite Z.mul_add_distr_r, (Z.mul_add_distr_r k 1).
    change (2 ^ 20) with 1048576 in *. change (2 ^ 21) with 2097152 in *.
    change (2 ^ 52) with 4503599627370496 in *. change (10 ^ 7) with 10000000 in *.
    clear IH Hsum. revert Hclose Htc HkD HCD HcD HD Hadd.
    generalize (2 ^ 1074) (k * 2 ^ 1074) (C * 2 ^ 1074) (cq * 2 ^ 1074)
               (scaled acc) (scaled t) (scaled (Number.add acc t)).
    intros. lia.
Qed.

(** A number within a quarter of a hundredth of [C / 100] prints, with two
    decimals, as [C / 100]. *)
Lemma toFixed2_cents_close m e C :
  -1074 ≤ e →
  4 * Z.abs (100 * (Zpos m * 2 ^ (e + 1074)) - C * 2 ^ 1074) ≤ 2 ^ 1074 →
  Number.toFixed2_cents m e = C.
Proof.
  intros He Hclose. unfold Number.toFixed2_cents.
  assert (HW : 0 < 2 ^ (e + 1074)) by (apply Z.pow_pos_nonneg; lia).
  destruct (Z.leb_spec 0 e) as [Hpos|Hneg].
  - assert (HP : 0 < 2 ^ e) by (apply Z.pow_pos_nonneg; lia).
    rewrite Z.pow_add_r in Hclose by lia.
    assert (0 < 2 ^ 1074) by (apply Z.pow_pos_nonneg; lia).
    revert Hclose. generalize dependent (2 ^ 1074). generalize dependent (2 ^ e).
    intros P HP D HD Hclose. nia.
  - assert (HP : 0 < 2 ^ (- e)) by (apply Z.pow_pos_nonneg; lia).
    assert (HD : 2 ^ 1074 = 2 ^ (e + 1074) * 2 ^ (- e)).
    { rewrite <- Z.pow_add_r by lia. f_equal. lia. }
    replace (2 ^ (1 - e)) with (2 * 2 ^ (- e))
      by (replace (1 - e) with (1 + - e) by lia; rewrite Z.pow_add_r by lia; done).
    rewrite HD in Hclose. symmetry. apply Z.div_unique_pos with (200 * Zpos m + 2 ^ (- e) - 2 * 2 ^ (- e) * C); [|lia].
    revert Hclose HP HW. generalize (2 ^ (e + 1074)) (2 ^ (- e)). intros W P Hclose HP HW.
    assert (4 * Z.abs (100 * Zpos m - C * P) ≤ P) by nia. lia.
Qed.

Lemma round2_close x C :
  okFloat x → 0 ≤ C ≤ 10 ^ 9 →
  4 * Z.abs (100 * scaled x - C * 2 ^ 1074) ≤ 2 ^ 1074 →
  Number.round2 x = decimal2 C.
Proof.
  intros Hx HC Hclose.
  assert (HD : 0 < 2 ^ 1074) by (apply Z.pow_pos_nonneg; lia).
  destruct x as [[]|[]| |[] m e]; try done; simpl in Hx, Hclose.
  - assert (C = 0) as -> by nia. reflexivity.
  - pose proof (toFixed2_cents_close m e C Hx Hclose) as Hcents.
    unfold Number.round2. rewrite Hcents.
    assert (Hsmall : Number.ge_1e21 m e = false).
    { unfold Number.ge_1e21.
      assert (HW : 0 < 2 ^ (e + 1074)) by (apply Z.pow_pos_nonneg; lia).
      change (10 ^ 9) with 1000000000 in HC.
      change (10 ^ 21) with 1000000000000000000000.
      destruct (Z.leb_spec 0 e) as [Hpos|Hneg].
      - assert (HP : 0 < 2 ^ e) by (apply Z.pow_pos_nonneg; lia).
        rewrite Z.pow_add_r in Hclose by lia.
        apply Z.leb_gt. revert Hclose HP HD. generalize (2 ^ e) (2 ^ 1074). intros. nia.
      - assert (HP : 0 < 2 ^ (- e)) by (apply Z.pow_pos_nonneg; lia).
        assert (HD' : 2 ^ 1074 = 2 ^ (e + 1074) * 2 ^ (- e)).
        { rewrite <- Z.pow_add_r by lia. f_equal. lia. }
        rewrite HD' in Hclose. apply Z.leb_gt.
        revert Hclose HP HW. generalize (2 ^ (e + 1074)) (2 ^ (- e)). intros W P Hclose HP HW.
        assert (4 * Z.abs (100 * Zpos m - C * P) ≤ P) by nia. nia. }
    rewrite Hsmall. destruct C as [|c|c]; [done|done|lia].
Qed.

(** For a good cart, the total the handlers report is the nominal amount:
    rounding hides every error of the binary arithmetic. *)
Lemma total_of_good items :
  goodCart items →
  Number.round2 (calculateCartTotal items) = decimal2 (nominalCents items).
Proof.
  intros Hgood. pose proof (good_length items Hgood) as Hlen.
  destruct Hgood as [_ Hall].
  assert (HD : 0 < 2 ^ 1074) by (apply Z.pow_pos_nonneg; lia).
  destruct (fold_total_close items Number.zero 0 0 Hall) as (Hok & HC & Hclose);
    [done|lia|lia|lia|simpl; lia|].
  rewrite Z.add_0_l in HC, Hclose.
  apply round2_close; [done| |].
  - change (10 ^ 7) with 10000000 in HC. change (10 ^ 9) with 1000000000. lia.
  - change (2 ^ 20) with 1048576 in Hclose. unfold calculateCartTotal.
    revert Hclose HD.
    generalize (2 ^ 1074). intros. lia.
Qed.

Lemma pow_1074 : 2 ^ 1074 = Zpos (2 ^ 1074).
Proof. by rewrite Pos2Z.inj_pow. Qed.

(** A rational within a quarter of a hundredth of [N / 100] rounds to [N]
    hundredths. *)
Lemma roundCents_close (r : Q) Zs N :
  (r == Zs # 2 ^ 1074)%Q →
  4 * Z.abs (100 * Zs - N * 2 ^ 1074) ≤ 2 ^ 1074 →
  roundCents r = N.
Proof.
  intros Hr Hclose. unfold roundCents. rewrite Hr. clear Hr.
  rewrite pow_1074 in Hclose. revert Hclose. generalize (2 ^ 1074)%positive.
  intros D Hclose. unfold Qfloor, Qplus, Qmult. simpl.
  rewrite Pos2Z.inj_mul. symmetry.
  apply Z.div_unique_pos with (100 * Zs * 2 + Zpos D - Zpos D * 2 * N); lia.
Qed.

(** The exact sum of a good cart, as a multiple of 2^-1074, is within
    [50 * 2^-30] hundredths per line item of the nominal amount. *)
Lemma exactSum_close items :
  Forall goodItem items →
  ∃ Zs, (exactSum items == Zs # 2 ^ 1074)%Q ∧
        2 ^ 30 * Z.abs (100 * Zs - nominalCents items * 2 ^ 1074)
        ≤ 50 * Z.of_nat (length items) * 2 ^ 1074.
Proof.
  assert (HD : 0 < 2 ^ 1074) by (apply Z.pow_pos_nonneg; lia).
  induction 1 as [|item items Hitem _ (Zr & Hr & Hclose)].
  - exists 0. split; [reflexivity|]. simpl. lia.
  - destruct (goodItem_term item Hitem) as (_ & _ & _ & Hq & Hprice & Hv).
    exists (scaled (CartItem.price item) * CartItem.quantity item + Zr). split.
    + simpl exactSum. rewrite Hv, Hr. generalize (2 ^ 1074)%positive. intros D.
      unfold Qeq, Qplus, Qmult, inject_Z. simpl. rewrite !Pos2Z.inj_mul. ring.
    + simpl nominalCents. simpl length.
      set (q := CartItem.quantity item) in *.
      set (c := priceCents (CartItem.price item)) in *.
      change (2 ^ 30) with 1073741824 in *.
      assert (Hpq : 1073741824 * (q * Z.abs (100 * scaled (CartItem.price item) - c * 2 ^ 1074))
                    ≤ 50 * 2 ^ 1074) by nia.
      assert (Habs : Z.abs (100 * (scaled (CartItem.price item) * q + Zr)
                            - (c * q + nominalCents items) * 2 ^ 1074)
                     ≤ q * Z.abs (100 * scaled (CartItem.price item) - c * 2 ^ 1074)
                       + Z.abs (100 * Zr - nominalCents items * 2 ^ 1074)).
      { replace (100 * (scaled (CartItem.price item) * q + Zr)
                 - (c * q + nominalCents items) * 2 ^ 1074)
          with (q * (100 * scaled (CartItem.price item) - c * 2 ^ 1074)
                + (100 * Zr - nominalCents items * 2 ^ 1074)) by ring.
        etrans; [apply Z.abs_triangle|]. rewrite Z.abs_mul, (Z.abs_eq q) by lia. lia. }
      lia.
Qed.

(** In exact arithmetic too, the sum of a good cart rounds to the nominal
    amount. *)
Lemma roundCents_of_good items :
  goodCart items → roundCents (exactSum items) = nominalCents items.
Proof.
  intros Hgood. pose proof (good_length items Hgood) as Hlen.
  destruct Hgood as [_ Hall].
  assert (HD : 0 < 2 ^ 1074) by (apply Z.pow_pos_nonneg; lia).
  destruct (exactSum_close items Hall) as (Zs & Hr & Hclose).
  apply (roundCents_close _ Zs); [done|].
  change (2 ^ 30) with 1073741824 in Hclose.
  assert (50 * Z.of_nat (length items) * 2 ^ 1074 ≤ 250 * 2 ^ 1074) by nia.
  revert Hclose H HD. generalize (2 ^ 1074). intros. lia.
Qed.

(** A request is either refused before its handler runs, the store staying
    as it is, or performs one operation under its session. *)
Lemma handle_cases req st :
  (∃ status e, handle req st = (Failure status e, st)) ∨
  (∃ op, handle req st = perform op (sessionOf req) st).
Proof.
  assert (Hv : ∀ productId r, validateProductId productId = inl r →
                              ∃ status e, r = Failure status e).
  { intros productId r. unfold validateProductId. destruct (_ || _).
    - intros [= <-]. eauto.
    - destruct (findProductById productId); [done|]. intros [= <-]. eauto. }
  assert (Hq : ∀ quantity r, validateQuantity quantity = Some r →
                             ∃ status e, r = Failure status e).
  { intros [v|] r; [|done]. destruct v; simpl;
      try destruct (_ <=? _); intros [= <-]; eauto. }
  destruct req; simpl.
  - right. by exists OpGetCart.
  - destruct (validateProductId productId) as [r|product] eqn:Ep.
    { left. destruct (Hv _ _ Ep) as (status & e & ->). eauto. }
    destruct (validateQuantity quantity) as [r|] eqn:Eq.
    { left. destruct (Hq _ _ Eq) as (status & e & ->). eauto. }
    right. by exists (OpAddItem product (quantityOf quantity)).
  - destruct (validateProductId productId) as [r|product] eqn:Ep.
    { left. destruct (Hv _ _ Ep) as (status & e & ->). eauto. }
    destruct (validateQuantity quantity) as [r|] eqn:Eq.
    { left. destruct (Hq _ _ Eq) as (status & e & ->). eauto. }
    right. by exists (OpUpdateItem product (quantityOf quantity)).
  - right. by exists (OpRemoveItem productId).
  - right. by exists OpClearCart.
Qed.

(** The total of a success response is computed from its cart. *)
Lemma success_total op sessionId st status d :
  (perform op sessionId st).1 = Success status d →
  total d = Number.round2 (calculateCartTotal (cart d)).
Proof.
  destruct op; simpl.
  - unfold getCart. destruct (getOrCreateCart sessionId st). simpl. by intros [= <- <-].
  - unfold addItem. destruct (getOrCreateCart sessionId st).
    destruct (_ >? _); [done|].
    destruct (list_find _ _) as [[i existing]|].
    + destruct (_ >? _); [done|]. simpl. by intros [= <- <-].
    + simpl. by intros [= <- <-].
  - unfold updateItem. destruct (getOrCreateCart sessionId st).
    destruct (negb _); [done|].
    destruct (list_find _ _) as [[i item]|]; [|done].
    destruct (_ >? _); [done|]. simpl. by intros [= <- <-].
  - unfold removeItem. destruct (getOrCreateCart sessionId st).
    destruct (_ || _); [done|].
    destruct (list_find _ _) as [[i item]|]; [|done].
    simpl. by intros [= <- <-].
  - unfold clearCart. destruct (getOrCreateCart sessionId st).
    case_bool_decide; [done|]. simpl. by intros [= <- <-].
Qed.

(** C7.  In every success response of the server, the reported total is the
    sum over the line items of the cart of price times quantity, taken in
    exact arithmetic on the prices as stored and rounded to two decimals:
    the total is the Number written with these two decimals.  The binary
    arithmetic of the handler never shows: the rounded sum is also the sum
    of the prices in hundredths times the quantities.  In particular a cart
    with one item priced 999.99 and one priced 399.99, each at quantity 1,
    has total 1399.98. *)
Theorem reported_total st req status d :
  reachable st → (handle req st).1 = Success status d →
  total d = decimal2 (roundCents (exactSum (cart d))) ∧
  roundCents (exactSum (cart d)) = nominalCents (cart d) ∧
  ∀ id1 name1 image1 id2 name2 image2,
    let item1 := CartItem.mk id1 name1 (Number.cents 99999) image1 1 in
    let item2 := CartItem.mk id2 name2 (Number.cents 39999) image2 1 in
    total (cartData [item1; item2] None) = Number.cents 139998 ∧
    total (cartData [item2; item1] None) = Number.cents 139998.
Proof.
  intros Hr Hs.
  assert (Hgood : goodCart (cart d) ∧
                  total d = Number.round2 (calculateCartTotal (cart d))).
  { pose proof (reachable_step req st Hr) as Hr'.
    destruct (handle_cases req st) as [(status' & e & Hh)|[op Hh]];
      rewrite Hh in Hs, Hr'; [done|]. split.
    - destruct (perform_success st op _ status d (reachable_wf st Hr) Hs) as [_ Hown].
      by eapply reachable_good.
    - by eapply success_total. }
  destruct Hgood as [Hgood Htotal]. split_and!.
  - by rewrite Htotal, total_of_good, roundCents_of_good.
  - by apply roundCents_of_good.
  - intros. split; vm_compute; reflexivity.
Qed.

Lemma reported_total_witness :
  let d := cartData [snapshot iPhone 1; snapshot sony 1] None in
  total d = decimal2 (roundCents (exactSum (cart d))) ∧
  roundCents (exactSum (cart d)) = nominalCents (cart d).
Proof.
  intros d.
  destruct (reported_total carolStore
              (PostCart (Some "carol") "" "4" (Some (JInteger 1))) 201 d) as (H1 & H2 & _).
  - apply reachable_step, reachable_init.
  - vm_compute. reflexivity.
  - split; assumption.
Defined.

Example reported_total_example :
  total (cartData [snapshot iPhone 1; snapshot sony 1] None) = Number.cents 139998 ∧
  decimal2 (roundCents (exactSum [snapshot iPhone 1; snapshot sony 1]))
  = Number.cents 139998 ∧
  nominalCents [snapshot iPhone 1; snapshot sony 1] = 139998.
Proof. split_and!; vm_compute; reflexivity. Qed.


(** ** Fetching one product *)

(** The three outcomes of [validateProductId]. *)
Lemma validateProductId_outcomes productId :
  (validateProductId productId = inl (Failure 400 InvalidId) ↔ parseInt productId = None) ∧
  (∀ n, parseInt productId = Some n →
        (∀ product, product ∈ products → Product.id product ≠ n) →
        validateProductId productId = inl (Failure 404 ProductNotFound)) ∧
  (∀ product, validateProductId productId = inr product ↔
              product ∈ products ∧ parseInt productId = Some (Product.id product)).
Proof.
  unfold validateProductId.
  assert (Hguard : bool_decide (productId = "") || isNaN (parseInt productId)
                   = isNaN (parseInt productId)).
  { case_bool_decide as He; [|done]. by rewrite He. }
  rewrite Hguard. split_and!.
  - destruct (parseInt productId) as [n|]; simpl; [|done].
    split; [|done]. by destruct (findProductById productId).
  - intros n Hn Hnone. rewrite Hn. simpl.
    destruct (findProductById productId) as [p|] eqn:E; [|done].
    apply findProductById_Some in E as [Hin Hp]. destruct (Hnone p Hin). congruence.
  - intros product. rewrite <- findProductById_Some.
    destruct (parseInt productId) as [n|] eqn:En; simpl.
    + destruct (findProductById productId); split; intros; simplify_eq; done.
    + split; [done|]. intros Hf. apply findProductById_Some in Hf as [_ Hf].
      congruence.
Qed.

(** X1.  GET /api/products/:productId answers 400 exactly when [parseInt]
    reads no number from the identifier, 404 when it reads a number that no
    product has as its id, and a product exactly when that product is in the
    catalogue and [parseInt] reads its id from the identifier. *)
Theorem getProduct_outcomes productId :
  (getProduct productId = inl (Failure 400 InvalidId) ↔ parseInt productId = None) ∧
  (∀ n, parseInt productId = Some n →
        (∀ product, product ∈ products → Product.id product ≠ n) →
        getProduct productId = inl (Failure 404 ProductNotFound)) ∧
  (∀ product, getProduct productId = inr product ↔
              product ∈ products ∧ parseInt productId = Some (Product.id product)).
Proof. exact (validateProductId_outcomes productId). Qed.

Lemma getProduct_outcomes_witness :
  getProduct "7" = inl (Failure 404 ProductNotFound).
Proof.
  apply (proj1 (proj2 (getProduct_outcomes "7")) 7); [reflexivity|].
  intros product. unfold products. rewrite !elem_of_cons, elem_of_nil.
  intros [->|[->|[->|[->|[->|[]]]]]]; discriminate.
Defined.

(** X2.  Asked with the decimal numeral of a number [n] from 0 on, the route
    returns the catalogue product with id [n]; for [n = 0] and [n > 5],
    the ids no product has, it answers 404. *)
Theorem getProduct_by_numeral n :
  0 ≤ n →
  (∀ product, product ∈ products → Product.id product = n →
              getProduct (toDecimal n) = inr product) ∧
  (n = 0 ∨ 5 < n → getProduct (toDecimal n) = inl (Failure 404 ProductNotFound)).
Proof.
  intros Hn. pose proof (parseInt_toDecimal n Hn) as Hp.
  destruct (validateProductId_outcomes (toDecimal n)) as (_ & Hnone & Hsome).
  unfold getProduct. split.
  - intros product Hin Hid. apply Hsome. by rewrite Hid.
  - intros Hout. apply (Hnone n Hp). intros product.
    unfold products. rewrite !elem_of_cons, elem_of_nil.
    intros [->|[->|[->|[->|[->|[]]]]]]; simpl; lia.
Qed.

Lemma getProduct_by_numeral_witness : getProduct (toDecimal 4) = inr sony.
Proof.
  apply (proj1 (getProduct_by_numeral 4 ltac:(lia)) sony); [|reflexivity].
  unfold sony, products. simpl. set_solver.
Defined.

(** ** Requests the middleware refuses *)

(** X3.  POST and PUT /api/cart/:productId are refused by the middleware
    before the handler runs, with the store as it was, so that no cart is
    made for the session: 400 when [parseInt] reads no number from the
    identifier, 404 when no product has the number it reads, and 400 when
    the product exists and the body has a quantity that is not an integer
    above zero. *)
Theorem middleware_refusals header uuid productId quantity st req :
  req = PostCart header uuid productId quantity ∨
  req = PutCart header uuid productId quantity →
  (parseInt productId = None → handle req st = (Failure 400 InvalidId, st)) ∧
  (∀ n, parseInt productId = Some n →
        (∀ product, product ∈ products → Product.id product ≠ n) →
        handle req st = (Failure 404 ProductNotFound, st)) ∧
  (∀ product v, validateProductId productId = inr product →
        quantity = Some v → (∀ z, v = JInteger z → z ≤ 0) →
        handle req st = (Failure 400 InvalidQuantity, st)).
Proof.
  intros Hreq. destruct (validateProductId_outcomes productId) as (Hnan & Hnone & _).
  split_and!.
  - intros Hp. apply Hnan in Hp. destruct Hreq as [-> | ->]; simpl; by rewrite Hp.
  - intros n Hp Hno.
    destruct Hreq as [-> | ->]; simpl; by rewrite (Hnone n Hp Hno).
  - intros product v Hv -> Hbad.
    assert (Hq : validateQuantity (Some v) = Some (Failure 400 InvalidQuantity)).
    { destruct v; simpl; try done.
      destruct (Z.leb_spec z 0); [done|]. specialize (Hbad z eq_refl). lia. }
    destruct Hreq as [-> | ->]; unfold handle; by rewrite Hv, Hq.
Qed.

Lemma middleware_refusals_witness :
  handle (PostCart (Some "dave") "" "1" (Some (JString "2"))) emptyStore
  = (Failure 400 InvalidQuantity, emptyStore).
Proof.
  refine (proj2 (proj2 (middleware_refusals (Some "dave") "" "1" (Some (JString "2"))
            emptyStore _ (or_introl eq_refl))) iPhone (JString "2") _ eq_refl _).
  - reflexivity.
  - intros z Hz. discriminate Hz.
Defined.

(** ** Failures change no cart *)

Lemma body_failure op body items status e :
  bodyOf op = Some body → (body items).1 = Failure status e → (body items).2 = None.
Proof.
  destruct op; simpl; intros [= <-].
  - done.
  - unfold addBody. destruct (_ >? _); [done|].
    destruct (list_find _ items) as [[i existing]|]; [|done].
    by destruct (_ >? _).
  - unfold updateBody. destruct (negb _); [done|].
    destruct (list_find _ items) as [[i item]|]; [|done].
    by destruct (_ >? _).
  - unfold removeBody. destruct (_ || _); [done|].
    by destruct (list_find _ items) as [[i item]|].
Qed.

(** X4.  A cart request that is answered with a failure changes the line
    items of no session (a session without a cart has none). *)
Theorem failure_changes_no_cart st req status e :
  reachable st → (handle req st).1 = Failure status e →
  ∀ s, cartView (handle req st).2 s = cartView st s.
Proof.
  intros Hr Hfail s. apply reachable_wf in Hr.
  destruct (handle_cases req st) as [(status' & e' & Hh)|[op Hh]];
    rewrite Hh in *; [done|].
  destruct (bodyOf op) as [body|] eqn:Eb.
  - rewrite (perform_onCart op body) in * by done.
    destruct (onCart_spec (sessionOf req) body st Hr) as (_ & Hres & _).
    rewrite Hres in Hfail. apply onCart_unchanged; [done|].
    by eapply body_failure.
  - destruct op; try done. simpl in *.
    destruct (clearCart_spec (sessionOf req) st Hr) as (_ & Hres & Hown & Hfr).
    rewrite Hres in Hfail. case_bool_decide as Hlen; [|done].
    destruct (decide (s = sessionOf req)) as [->|Hne].
    + unfold cartView at 1. rewrite Hown. simpl.
      by destruct (cartView st (sessionOf req)).
    + unfold cartView. by rewrite Hfr.
Qed.

Lemma failure_changes_no_cart_witness :
  cartView (handle (PutCart (Some "alice") "" "1" (Some (JInteger 51))) aliceStore).2 "alice"
  = cartView aliceStore "alice".
Proof.
  apply (failure_changes_no_cart aliceStore _ 400 InsufficientStock).
  - apply reachable_step, reachable_init.
  - vm_compute. reflexivity.
Defined.

(** ** Carts are created on first use and never dropped *)

(** X5.  No request drops a cart: a session that has a cart has one after
    any request.  GET /api/cart, DELETE /api/cart/:productId and
    DELETE /api/cart leave the session of the request with a cart, also when
    they answer with a failure. *)
Theorem carts_persist st req s :
  reachable st →
  (is_Some (cartOf st s) → is_Some (cartOf (handle req st).2 s)) ∧
  match req with
  | PostCart _ _ _ _ | PutCart _ _ _ _ => True
  | _ => is_Some (cartOf (handle req st).2 (sessionOf req))
  end.
Proof.
  intros Hr. apply reachable_wf in Hr.
  assert (Hop : ∀ op, is_Some (cartOf (perform op (sessionOf req) st).2 (sessionOf req))).
  { intros op. destruct (bodyOf op) as [body|] eqn:Eb.
    - rewrite (perform_onCart op body) by done.
      destruct (onCart_spec (sessionOf req) body st Hr) as (_ & _ & -> & _). eauto.
    - destruct op; try done. simpl.
      destruct (clearCart_spec (sessionOf req) st Hr) as (_ & _ & -> & _). eauto. }
  split.
  - intros Hs.
    destruct (handle_cases req st) as [(status' & e' & ->)|[op ->]]; [done|].
    destruct (decide (s = sessionOf req)) as [->|Hne]; [apply Hop|].
    destruct (perform_wf_frame op (sessionOf req) st Hr) as [_ Hfr].
    by rewrite Hfr.
  - destruct req; try done.
    + apply (Hop OpGetCart).
    + apply (Hop (OpRemoveItem productId)).
    + apply (Hop OpClearCart).
Qed.

Lemma carts_persist_witness :
  is_Some (cartOf (handle (DeleteCart (Some "alice") "") aliceStore).2 "alice").
Proof.
  apply (proj1 (carts_persist aliceStore (DeleteCart (Some "alice") "") "alice"
                  (reachable_step _ _ reachable_init))).
  vm_compute. eauto.
Defined.

(** ** Viewing the cart *)

Lemma getOrCreateCart_present sessionId st c :
  carts st !! sessionId = Some c → getOrCreateCart sessionId st = (c, st).
Proof. intros Hc. unfold getOrCreateCart. by rewrite Hc. Qed.

(** X6.  GET /api/cart answers 200 with the line items of the session, their
    total and their number.  It changes the line items of no session, asking
    again gives the same answer and the same store, and a session without a
    cart is shown an empty cart with total 0. *)
Theorem getCart_reads st sessionId :
  reachable st →
  let out := getCart sessionId st in
  out.1 = Success 200 (cartData (cartView st sessionId) None) ∧
  (∀ s, cartView out.2 s = cartView st s) ∧
  getCart sessionId out.2 = out ∧
  (cartOf st sessionId = None → out.1 = Success 200 (mkData [] Number.zero 0 None)).
Proof.
  intros Hr out. apply reachable_wf in Hr. subst out.
  destruct (getOrCreateCart_spec sessionId st Hr) as (Hwf1 & Hc & Hd & Hfr).
  set (g := getOrCreateCart sessionId st) in *.
  assert (H1 : getCart sessionId st
               = (Success 200 (cartData (cartView st sessionId) None), g.2)).
  { unfold getCart. fold g. destruct g. simpl in *. by rewrite Hd. }
  assert (H2 : getCart sessionId g.2
               = (Success 200 (cartData (cartView st sessionId) None), g.2)).
  { unfold getCart. rewrite (getOrCreateCart_present _ _ _ Hc). by rewrite Hd. }
  rewrite H1. simpl. split_and!.
  - done.
  - intros s. destruct (decide (s = sessionId)) as [->|Hne].
    + unfold cartView at 1, cartOf. rewrite Hc. simpl. by rewrite Hd.
    + unfold cartView. by rewrite Hfr.
  - done.
  - intros Hnone. unfold cartView. rewrite Hnone. reflexivity.
Qed.

Lemma getCart_reads_witness :
  (getCart "erin" aliceStore).1 = Success 200 (mkData [] Number.zero 0 None).
Proof.
  apply (proj2 (proj2 (proj2 (getCart_reads aliceStore "erin"
           (reachable_step _ _ reachable_init))))).
  vm_compute. reflexivity.
Defined.

(** ** Clearing the cart *)

(** X7.  DELETE /api/cart answers 400 when the cart of the session has no
    line item, and 200 with an empty cart, total 0 and count 0 when it has
    one.  Either way the cart is empty afterwards: clearing it again answers
    400, and GET /api/cart shows no line item and total 0. *)
Theorem clearCart_outcomes st sessionId :
  reachable st →
  let out := clearCart sessionId st in
  (cartView st sessionId = [] → out.1 = Failure 400 AlreadyEmpty) ∧
  (cartView st sessionId ≠ [] → out.1 = Success 200 (mkData [] Number.zero 0 None)) ∧
  cartView out.2 sessionId = [] ∧
  (clearCart sessionId out.2).1 = Failure 400 AlreadyEmpty ∧
  (getCart sessionId out.2).1 = Success 200 (mkData [] Number.zero 0 None).
Proof.
  intros Hr out. apply reachable_wf in Hr. subst out.
  destruct (clearCart_spec sessionId st Hr) as (Hwf1 & Hres & Hown & _).
  pose proof (cartView_of _ _ _ Hown) as Hview.
  split_and!.
  - intros He. rewrite Hres, He. done.
  - intros Hne. rewrite Hres. case_bool_decide as Hlen; [|done].
    by destruct (cartView st sessionId).
  - done.
  - destruct (clearCart_spec sessionId _ Hwf1) as (_ & -> & _).
    by rewrite Hview.
  - rewrite getCart_onCart.
    destruct (onCart_spec sessionId getBody _ Hwf1) as (_ & -> & _).
    by rewrite Hview.
Qed.

Lemma clearCart_outcomes_witness :
  (clearCart "alice" aliceStore).1 = Success 200 (mkData [] Number.zero 0 None).
Proof.
  apply (proj1 (proj2 (clearCart_outcomes aliceStore "alice"
           (reachable_step _ _ reachable_init)))).
  vm_compute. discriminate.
Defined.

(** ** How the operations compose *)

Lemma parse_guard productId n :
  parseInt productId = Some n →
  bool_decide (productId = "") || isNaN (parseInt productId) = false.
Proof.
  intros Hp. rewrite Hp. simpl. case_bool_decide as He; [|done].
  rewrite He in Hp. discriminate.
Qed.

Lemma removeBody_at productId n (items : list CartItem.t) i item :
  parseInt productId = Some n → items !! i = Some item → CartItem.id item = n →
  (∀ j y, items !! j = Some y → (j < i)%nat → CartItem.id y ≠ n) →
  removeBody productId items
  = (Success 200 (cartData (delete i items) (Some item)), Some (delete i items)).
Proof.
  intros Hp Hi Hid Hleast. unfold removeBody.
  rewrite (parse_guard _ _ Hp), Hp.
  assert (Hf : list_find (λ x, strictEq (CartItem.id x) (Some n)) items = Some (i, item)).
  { apply list_find_Some. unfold strictEq. split_and!; [done|congruence|].
    intros j y Hj Hlt [= Hy]. by eapply Hleast. }
  by rewrite Hf.
Qed.

Lemma removeBody_absent productId n (items : list CartItem.t) :
  parseInt productId = Some n → Forall (λ item, CartItem.id item ≠ n) items →
  removeBody productId items = (Failure 404 NotFound, None).
Proof.
  intros Hp Habs. unfold removeBody. rewrite (parse_guard _ _ Hp), Hp.
  rewrite (proj2 (list_find_None _ items)); [done|].
  eapply Forall_impl; [done|]. unfold strictEq. naive_solver.
Qed.

(** With one line item per id, taking a line item out leaves none with its
    id. *)
Lemma delete_no_id (items : list CartItem.t) i item :
  NoDup (CartItem.id <$> items) → items !! i = Some item →
  Forall (λ x, CartItem.id x ≠ CartItem.id item) (delete i items).
Proof.
  intros Hnd Hi. apply Forall_forall. intros x Hx Heq.
  apply list_elem_of_lookup in Hx as [j Hj].
  destruct (decide (j < i)%nat) as [Hlt|Hge].
  - rewrite list_lookup_delete_lt in Hj by done.
    assert (j = i); [|lia].
    eapply NoDup_lookup; [done| |]; rewrite list_lookup_fmap.
    + rewrite Hj. simpl. by rewrite Heq.
    + by rewrite Hi.
  - rewrite list_lookup_delete_ge in Hj by lia.
    assert (S j = i); [|lia].
    eapply NoDup_lookup; [done| |]; rewrite list_lookup_fmap.
    + rewrite Hj. simpl. by rewrite Heq.
    + by rewrite Hi.
Qed.

(** X8.  Adding a product the cart has no line item of, with a quantity from
    1 up to its stock, and then removing it by an identifier [parseInt]
    reads its id from, gives the cart back: the addition answers 201 with
    the line item at the end of the cart, the removal answers 200 with this
    line item as [removedItem], and the line items are those of before. *)
Theorem add_then_remove st sessionId product q productId :
  reachable st → parseInt productId = Some (Product.id product) →
  0 < q ≤ Product.stock product →
  Forall (λ item, CartItem.id item ≠ Product.id product) (cartView st sessionId) →
  let added := addItem sessionId product (Some q) st in
  let removed := removeItem sessionId productId added.2 in
  added.1 = Success 201 (cartData (cartView st sessionId ++ [snapshot product q]) None) ∧
  removed.1 = Success 200 (cartData (cartView st sessionId) (Some (snapshot product q))) ∧
  cartView removed.2 sessionId = cartView st sessionId.
Proof.
  intros Hr Hp Hq Habs. simpl. apply reachable_wf in Hr.
  set (items := cartView st sessionId) in *.
  rewrite addItem_onCart, removeItem_onCart.
  destruct (onCart_spec sessionId (addBody product (Some q)) st Hr)
    as (Hwf1 & Hres1 & Hown1 & _).
  fold items in Hres1, Hown1.
  assert (Hb1 : addBody product (Some q) items
                = (Success 201 (cartData (items ++ [snapshot product q]) None),
                   Some (items ++ [snapshot product q]))).
  { unfold addBody. simpl. destruct (Z.gtb_spec q (Product.stock product)); [lia|].
    by rewrite find_absent. }
  rewrite Hb1 in Hres1, Hown1. simpl in Hres1, Hown1.
  destruct (onCart_spec sessionId (removeBody productId) _ Hwf1)
    as (_ & Hres2 & Hown2 & _).
  rewrite (cartView_of _ _ _ Hown1) in Hres2, Hown2.
  assert (Hb2 : removeBody productId (items ++ [snapshot product q])
                = (Success 200 (cartData items (Some (snapshot product q))), Some items)).
  { rewrite (removeBody_at productId (Product.id product) _ (length items)
               (snapshot product q));
      [by rewrite delete_middle, app_nil_r|done|by apply list_lookup_middle|done|].
    intros j y Hj Hlt. rewrite lookup_app_l in Hj by done.
    rewrite Forall_forall in Habs. apply Habs. by eapply list_elem_of_lookup_2. }
  rewrite Hb2 in Hres2, Hown2. split_and!; [done..|]. by apply cartView_of.
Qed.

Lemma add_then_remove_witness :
  cartView (removeItem "alice" "4" (addItem "alice" sony (Some 3) aliceStore).2).2 "alice"
  = cartView aliceStore "alice".
Proof.
  refine (proj2 (proj2 (add_then_remove aliceStore "alice" sony 3 "4" _ eq_refl _ _))).
  - apply reachable_step, reachable_init.
  - vm_compute. split; [reflexivity|discriminate].
  - vm_compute. repeat constructor. discriminate.
Defined.

(** X9.  Removing a product the cart holds answers 200 with its line item
    taken out of the cart; removing it again answers 404 and leaves the cart
    as the first removal left it. *)
Theorem remove_twice st sessionId productId n i item :
  reachable st → parseInt productId = Some n →
  cartView st sessionId !! i = Some item → CartItem.id item = n →
  let first := removeItem sessionId productId st in
  let second := removeItem sessionId productId first.2 in
  first.1 = Success 200 (cartData (delete i (cartView st sessionId)) (Some item)) ∧
  second.1 = Failure 404 NotFound ∧
  cartView second.2 sessionId = delete i (cartView st sessionId).
Proof.
  intros Hr Hp Hi Hid. simpl.
  pose proof (reachable_view_good st sessionId Hr) as [Hnd _].
  apply reachable_wf in Hr. set (items := cartView st sessionId) in *.
  rewrite !removeItem_onCart.
  destruct (onCart_spec sessionId (removeBody productId) st Hr)
    as (Hwf1 & Hres1 & Hown1 & _).
  fold items in Hres1, Hown1.
  assert (Hb1 : removeBody productId items
                = (Success 200 (cartData (delete i items) (Some item)),
                   Some (delete i items))).
  { apply (removeBody_at productId n); [done..|].
    intros j y Hj Hlt Hy.
    assert (j = i); [|lia].
    eapply NoDup_lookup; [done| |]; rewrite list_lookup_fmap.
    - rewrite Hj. simpl. by rewrite Hy, <- Hid.
    - by rewrite Hi. }
  rewrite Hb1 in Hres1, Hown1. simpl in Hres1, Hown1.
  destruct (onCart_spec sessionId (removeBody productId) _ Hwf1)
    as (_ & Hres2 & Hown2 & _).
  rewrite (cartView_of _ _ _ Hown1) in Hres2, Hown2.
  assert (Hb2 : removeBody productId (delete i items) = (Failure 404 NotFound, None)).
  { apply (removeBody_absent productId n); [done|].
    rewrite <- Hid. by apply delete_no_id. }
  rewrite Hb2 in Hres2, Hown2. split_and!; [done..|]. by apply cartView_of.
Qed.

Lemma remove_twice_witness :
  (removeItem "alice" "1" (removeItem "alice" "1" aliceStore).2).1 = Failure 404 NotFound.
Proof.
  refine (proj1 (proj2 (remove_twice aliceStore "alice" "1" 1 0%nat (snapshot iPhone 2)
            _ eq_refl _ eq_refl))).
  - apply reachable_step, reachable_init.
  - vm_compute. reflexivity.
Defined.

Lemma updateBody_at product q (items : list CartItem.t) i item :
  NoDup (CartItem.id <$> items) → items !! i = Some item →
  CartItem.id item = Product.id product → q ≠ 0 → q ≤ Product.stock product →
  updateBody product (Some q) items
  = (Success 200 (cartData (<[i := CartItem.setQuantity item q]> items) None),
     Some (<[i := CartItem.setQuantity item q]> items)).
Proof.
  intros Hnd Hi Hid Hq Hstock. unfold updateBody. simpl.
  destruct (Z.eqb_spec q 0); [done|]. simpl.
  rewrite <- Hid, (find_unique _ i item) by done.
  by destruct (Z.gtb_spec q (Product.stock product)); [lia|].
Qed.

(** X10.  Of two updates of the quantity of a line item, each with a
    quantity from 1 up to the stock, the last one wins: the answer and the
    cart are those of the second update alone, the line item carries the
    second quantity and stays in its place. *)
Theorem updateItem_last_wins st sessionId product q1 q2 i item :
  reachable st →
  cartView st sessionId !! i = Some item → CartItem.id item = Product.id product →
  0 < q1 ≤ Product.stock product → 0 < q2 ≤ Product.stock product →
  let first := updateItem sessionId product (Some q1) st in
  let second := updateItem sessionId product (Some q2) first.2 in
  let direct := updateItem sessionId product (Some q2) st in
  second.1 = direct.1 ∧
  cartView second.2 sessionId = cartView direct.2 sessionId ∧
  cartView second.2 sessionId = <[i := CartItem.setQuantity item q2]> (cartView st sessionId).
Proof.
  intros Hr Hi Hid Hq1 Hq2. simpl.
  pose proof (reachable_view_good st sessionId Hr) as [Hnd _].
  apply reachable_wf in Hr. set (items := cartView st sessionId) in *.
  rewrite !updateItem_onCart.
  destruct (onCart_spec sessionId (updateBody product (Some q1)) st Hr)
    as (Hwf1 & _ & Hown1 & _).
  destruct (onCart_spec sessionId (updateBody product (Some q2)) st Hr)
    as (_ & Hresd & Hownd & _).
  fold items in Hown1, Hresd, Hownd.
  rewrite (updateBody_at product q1 items i item) in Hown1 by (done || lia).
  rewrite (updateBody_at product q2 items i item) in Hresd, Hownd by (done || lia).
  simpl in Hown1, Hresd, Hownd.
  destruct (onCart_spec sessionId (updateBody product (Some q2)) _ Hwf1)
    as (_ & Hres2 & Hown2 & _).
  rewrite (cartView_of _ _ _ Hown1) in Hres2, Hown2.
  assert (Hb : updateBody product (Some q2) (<[i := CartItem.setQuantity item q1]> items)
               = (Success 200 (cartData (<[i := CartItem.setQuantity item q2]> items) None),
                  Some (<[i := CartItem.setQuantity item q2]> items))).
  { rewrite (updateBody_at product q2 _ i (CartItem.setQuantity item q1));
      [by rewrite list_insert_insert_eq|by rewrite ids_insert_same| |done|lia|lia].
    apply list_lookup_insert_eq. by eapply lookup_lt_Some. }
  rewrite Hb in Hres2, Hown2. simpl in Hres2, Hown2.
  rewrite Hres2, Hresd, (cartView_of _ _ _ Hown2), (cartView_of _ _ _ Hownd). done.
Qed.

Lemma updateItem_last_wins_witness :
  cartView (updateItem "alice" iPhone (Some 9)
              (updateItem "alice" iPhone (Some 4) aliceStore).2).2 "alice"
  = [snapshot iPhone 9].
Proof.
  refine (proj2 (proj2 (updateItem_last_wins aliceStore "alice" iPhone 4 9 0%nat
            (snapshot iPhone 2) _ _ eq_refl _ _))).
  - apply reachable_step, reachable_init.
  - vm_compute. reflexivity.
  - vm_compute. split; [reflexivity|discriminate].
  - vm_compute. split; [reflexivity|discriminate].
Defined.

(** X11.  The handler of POST /api/cart/:productId answers 201 exactly when
    the quantity (1 when the body has none) is within the stock of the
    product and, for a product the cart has a line item of, the quantity of
    the line item plus the new one is within the stock too.  Otherwise it
    answers 400, insufficient stock; it gives no other answer. *)
Theorem addItem_succeeds_iff st sessionId product quantity :
  reachable st →
  let q := default 1 quantity in
  let out := addItem sessionId product quantity st in
  ((∃ d, out.1 = Success 201 d) ↔
   q ≤ Product.stock product ∧
   ∀ existing, existing ∈ cartView st sessionId →
               CartItem.id existing = Product.id product →
               CartItem.quantity existing + q ≤ Product.stock product) ∧
  (out.1 = Failure 400 InsufficientStock ∨ ∃ d, out.1 = Success 201 d).
Proof.
  intros Hr q out. pose proof (reachable_view_good st sessionId Hr) as [Hnd _].
  apply reachable_wf in Hr. subst out. rewrite addItem_onCart.
  destruct (onCart_spec sessionId (addBody product quantity) st Hr) as (_ & -> & _).
  set (items := cartView st sessionId) in *. unfold addBody. fold q.
  destruct (Z.gtb_spec q (Product.stock product)) as [Hgt|Hle]; simpl.
  { split; [|by left]. split; [by intros [d ?]|lia]. }
  destruct (list_find _ items) as [[i existing]|] eqn:E.
  - apply list_find_Some in E as (Hi & Hid & _).
    destruct (Z.gtb_spec (CartItem.quantity existing + q) (Product.stock product))
      as [Hgt'|Hle']; simpl.
    + split; [|by left]. split; [by intros [d ?]|].
      intros [_ Hall]. specialize (Hall existing). 
      assert (existing ∈ items) by (by eapply list_elem_of_lookup_2). naive_solver lia.
    + split; [|right; eauto]. split; [|eauto]. intros _. split; [done|].
      intros existing' Hin Hid'. apply list_elem_of_lookup in Hin as [j Hj].
      assert (j = i) as ->.
      { eapply NoDup_lookup; [done| |]; rewrite list_lookup_fmap.
        - rewrite Hj. simpl. by rewrite Hid'.
        - rewrite Hi. simpl. by rewrite Hid. }
      by simplify_eq.
  - apply list_find_None in E. split; [|right; eauto].
    split; [|eauto]. intros _. split; [done|].
    intros existing Hin Hid. rewrite Forall_forall in E. by destruct (E existing Hin).
Qed.

Lemma addItem_succeeds_iff_witness :
  ∃ d, (addItem "alice" iPhone (Some 48) aliceStore).1 = Success 201 d.
Proof.
  apply (proj1 (addItem_succeeds_iff aliceStore "alice" iPhone (Some 48)
                  (reachable_step _ _ reachable_init))).
  split; [vm_compute; discriminate|].
  intros existing Hin Hid. vm_compute in Hin.
  apply list_elem_of_singleton in Hin as ->. vm_compute. discriminate.
Defined.

(** ** The line items of other products *)

Lemma filter_insert_skip {A} (P : A → Prop) `{∀ x, Decision (P x)} (l : list A) :
  ∀ i x y, l !! i = Some x → ¬ P x → ¬ P y → filter P (<[i := y]> l) = filter P l.
Proof.
  induction l as [|z l IH]; intros i x y Hi Hx Hy; [done|].
  destruct i as [|i]; simpl in *.
  - injection Hi as ->. by rewrite !filter_cons_False.
  - rewrite !filter_cons. by rewrite (IH i x y).
Qed.

Lemma filter_delete_skip {A} (P : A → Prop) `{∀ x, Decision (P x)} (l : list A) :
  ∀ i x, l !! i = Some x → ¬ P x → filter P (delete i l) = filter P l.
Proof.
  induction l as [|z l IH]; intros i x Hi Hx; [done|].
  destruct i as [|i]; simpl in *.
  - injection Hi as ->. by rewrite filter_cons_False.
  - rewrite !filter_cons. by rewrite (IH i x).
Qed.

(** X12.  Adding, updating or removing the product with id [k], and reading
    the cart, leave the line items of the other products as they were, in
    the order they had. *)
Theorem other_line_items_untouched st sessionId op k :
  reachable st →
  match op with
  | OpAddItem product _ | OpUpdateItem product _ => Product.id product = k
  | OpRemoveItem productId => parseInt productId = Some k
  | OpGetCart => True
  | OpClearCart => False
  end →
  filter (λ item, CartItem.id item ≠ k) (cartView (perform op sessionId st).2 sessionId)
  = filter (λ item, CartItem.id item ≠ k) (cartView st sessionId).
Proof.
  intros Hr Hop. apply reachable_wf in Hr.
  destruct (bodyOf op) as [body|] eqn:Eb; [|by destruct op].
  rewrite (perform_onCart op body) by done.
  destruct (onCart_spec sessionId body st Hr) as (_ & _ & Hown & _).
  rewrite (cartView_of _ _ _ Hown). set (items := cartView st sessionId).
  destruct op; simpl in Eb; simplify_eq.
  - done.
  - unfold addBody. destruct (_ >? _); [done|].
    destruct (list_find _ items) as [[i existing]|] eqn:E.
    + apply list_find_Some in E as (Hi & Hid & _).
      destruct (_ >? _); [done|]. simpl.
      apply (filter_insert_skip _ items i existing); [done|naive_solver..].
    + simpl. rewrite filter_app, filter_cons_False, filter_nil by naive_solver.
      by rewrite app_nil_r.
  - unfold updateBody. destruct (negb _); [done|].
    destruct (list_find _ items) as [[i item]|] eqn:E; [|done].
    apply list_find_Some in E as (Hi & Hid & _).
    destruct (_ >? _); [done|]. simpl.
    apply (filter_insert_skip _ items i item); [done|naive_solver..].
  - unfold removeBody. destruct (_ || _); [done|].
    destruct (list_find _ items) as [[i item]|] eqn:E; [|done].
    apply list_find_Some in E as (Hi & Hid & _). simpl.
    apply (filter_delete_skip _ items i item); [done|].
    unfold strictEq in Hid. naive_solver.
Qed.

Lemma other_line_items_untouched_witness :
  filter (λ item, CartItem.id item ≠ 4)
    (cartView (perform (OpAddItem sony (Some 3)) "alice" aliceStore).2 "alice")
  = filter (λ item, CartItem.id item ≠ 4) (cartView aliceStore "alice").
Proof.
  apply (other_line_items_untouched aliceStore "alice" (OpAddItem sony (Some 3)) 4).
  - apply reachable_step, reachable_init.
  - reflexivity.
Defined.

(** ** More on the reported total and on the carts the server holds *)

Lemma nominalCents_perm c1 c2 : c1 ≡ₚ c2 → nominalCents c1 = nominalCents c2.
Proof.
  induction 1 as [|x l l' _ IH|x y l|l l' l'' _ IH1 _ IH2].
  - done.
  - change (priceCents (CartItem.price x) * CartItem.quantity x + nominalCents l
            = priceCents (CartItem.price x) * CartItem.quantity x + nominalCents l').
    by rewrite IH.
  - change (priceCents (CartItem.price y) * CartItem.quantity y
            + (priceCents (CartItem.price x) * CartItem.quantity x + nominalCents l)
            = priceCents (CartItem.price x) * CartItem.quantity x
              + (priceCents (CartItem.price y) * CartItem.quantity y + nominalCents l)).
    lia.
  - congruence.
Qed.

(** X13.  The total reported for a cart of the server does not depend on
    the order of its line items: two carts with the same line items in
    different orders report the same total, although the handler adds
    binary64 numbers from left to right. *)
Theorem total_order_independent st1 s1 c1 st2 s2 c2 :
  reachable st1 → cartOf st1 s1 = Some c1 →
  reachable st2 → cartOf st2 s2 = Some c2 →
  c1 ≡ₚ c2 →
  total (cartData c1 None) = total (cartData c2 None).
Proof.
  intros Hr1 Hc1 Hr2 Hc2 Hperm.
  change (Number.round2 (calculateCartTotal c1) = Number.round2 (calculateCartTotal c2)).
  rewrite (total_of_good c1) by exact (reachable_good st1 Hr1 s1 c1 Hc1).
  rewrite (total_of_good c2) by exact (reachable_good st2 Hr2 s2 c2 Hc2).
  by rewrite (nominalCents_perm c1 c2).
Qed.

Lemma total_order_independent_witness :
  total (cartData [snapshot iPhone 2; snapshot sony 3] None)
  = total (cartData [snapshot sony 3; snapshot iPhone 2] None).
Proof.
  apply (total_order_independent pairStore "alice" _ pairStore "bob").
  - repeat apply reachable_step. apply reachable_init.
  - vm_compute. reflexivity.
  - repeat apply reachable_step. apply reachable_init.
  - vm_compute. reflexivity.
  - apply perm_swap.
Defined.

(** X14.  Every line item of a cart of the server has the id, name, price
    and image of a product of the catalogue and a quantity from 1 up to the
    stock of that product; a cart has at most as many line items as the
    catalogue has products. *)
Theorem line_items_are_snapshots st s items :
  reachable st → cartOf st s = Some items →
  (length items ≤ length products)%nat ∧
  ∀ item, item ∈ items →
    ∃ product, product ∈ products ∧
               CartItem.id item = Product.id product ∧
               CartItem.name item = Product.name product ∧
               CartItem.price item = Product.price product ∧
               CartItem.image item = Product.image product ∧
               1 ≤ CartItem.quantity item ≤ Product.stock product.
Proof.
  intros Hr Hc. pose proof (reachable_good st Hr s items Hc) as Hgood.
  pose proof (good_length items Hgood) as Hlen. destruct Hgood as [_ Hall].
  split; [change (length products) with 5%nat; lia|].
  intros item Hin. rewrite Forall_forall in Hall.
  destruct (Hall item Hin) as (product & q & Hp & -> & Hq).
  exists product. simpl. split_and!; try done; lia.
Qed.

Lemma line_items_are_snapshots_witness :
  (length [snapshot iPhone 2; snapshot sony 3] ≤ length products)%nat.
Proof.
  apply (proj1 (line_items_are_snapshots pairStore "alice" _
                  ltac:(repeat apply reachable_step; apply reachable_init)
                  ltac:(vm_compute; reflexivity))).
Defined.

(** X15.  In the store of the server no two sessions share a cart array,
    and the array a session refers to exists: each cart is an array of its
    own, made by [getOrCreateCart] or by DELETE /api/cart. *)
Theorem arrays_never_shared st s1 s2 l :
  reachable st →
  carts st !! s1 = Some l → carts st !! s2 = Some l →
  s1 = s2 ∧ is_Some (arrays st !! l).
Proof.
  intros Hr H1 H2. apply reachable_wf in Hr. destruct Hr as [Ha Hi]. eauto.
Qed.

Lemma arrays_never_shared_witness :
  "alice" = "alice" ∧ is_Some (arrays aliceStore !! xH).
Proof.
  apply (arrays_never_shared aliceStore "alice" "alice" xH).
  - apply reachable_step, reachable_init.
  - vm_compute. reflexivity.
  - vm_compute. reflexivity.
Defined.

(** ** Pages of the listing *)

Lemma page_take_drop catalog search p l :
  0 < l → 1 ≤ p →
  productsOut (listProductsOf catalog (pageQuery search p l))
  = take (Z.to_nat l) (drop (Z.to_nat (p - 1) * Z.to_nat l) (filterProducts catalog search)).
Proof.
  intros Hl Hp. unfold listProductsOf, pageQuery. simpl.
  rewrite startIndex_integer, endIndex_integer, slice_elementsBetween by nia.
  unfold elementsBetween. rewrite elementsFrom_take_drop.
  f_equal; [|f_equal]; nia.
Qed.

Lemma ceilDiv_integer a l :
  0 < l → ∃ pages, ceilDiv a (inject_Z l) = CeilInt pages ∧ (pages - 1) * l < a ≤ pages * l.
Proof.
  intros Hl. unfold ceilDiv. destruct l as [|l|l]; try lia. simpl.
  eexists. split; [done|].
  unfold Qceiling, Qfloor. simpl. rewrite Pos.mul_1_l, Z.mul_1_r.
  pose proof (Z.div_mod (- a) (Z.pos l) ltac:(lia)).
  pose proof (Z.mod_pos_bound (- a) (Z.pos l) ltac:(lia)). nia.
Qed.

Lemma pagesUpTo_take catalog search l n :
  0 < l →
  pagesUpTo catalog search l n
  = take (n * Z.to_nat l) (filterProducts catalog search).
Proof.
  intros Hl. induction n as [|n IH]; [done|].
  cbn [pagesUpTo]. rewrite IH, page_take_drop by lia.
  replace (Z.to_nat (Z.of_nat (S n) - 1)) with n by lia.
  rewrite take_take_drop. f_equal. lia.
Qed.

(** X16.  For an integer limit above zero, the pages 1 to [n] of a listing,
    one after the other, are the first [n * limit] matching products in
    catalogue order.  With [totalPages] as the listing reports it, the pages
    1 to [totalPages] together are the matching products, each one once;
    each of these pages has a product and every later page is empty. *)
Theorem pages_partition catalog search l n pages :
  let matching := filterProducts catalog search in
  let firstPage := listProductsOf catalog (pageQuery search 1 l) in
  0 < l →
  pagesUpTo catalog search l n = take (n * Z.to_nat l) matching ∧
  (totalPages (pagination firstPage) = CeilInt pages →
   0 ≤ pages ∧
   pagesUpTo catalog search l (Z.to_nat pages) = matching ∧
   (∀ p, pages < p →
         productsOut (listProductsOf catalog (pageQuery search p l)) = []) ∧
   (∀ p, 1 ≤ p ≤ pages →
         productsOut (listProductsOf catalog (pageQuery search p l)) ≠ [])).
Proof.
  intros matching firstPage Hl. split; [by apply pagesUpTo_take|].
  assert (Ht : totalPages (pagination firstPage)
               = ceilDiv (Z.of_nat (length matching)) (inject_Z l)) by done.
  rewrite Ht.
  destruct (ceilDiv_integer (Z.of_nat (length matching)) l Hl) as (pages' & -> & Hp).
  intros [= <-]. assert (0 ≤ pages') by nia. split_and!.
  - done.
  - rewrite pagesUpTo_take by done. apply take_ge. nia.
  - intros p Hlt. rewrite page_take_drop by lia. fold matching.
    rewrite drop_ge; [by rewrite take_nil|]. nia.
  - intros p Hrange. rewrite page_take_drop by lia. fold matching.
    intros Hnil. apply (f_equal length) in Hnil.
    rewrite length_take, length_drop in Hnil. simpl in Hnil. nia.
Qed.

Lemma pages_partition_witness :
  pagesUpTo products None 2 3 = products.
Proof.
  destruct (pages_partition products None 2 3 3 ltac:(lia)) as (_ & H).
  destruct (H eq_refl) as (_ & Hall & _). exact Hall.
Defined.

(** X17.  For an integer limit above zero and an integer page from 1 on,
    [hasNext] is true exactly when the next page has a product, and
    [hasPrev] is true exactly from page 2 on.  A page with [hasNext] is
    full, and when [hasNext] is false the pages up to this one hold all the
    matching products. *)
Theorem hasNext_hasPrev catalog search p l :
  let out := listProductsOf catalog (pageQuery search p l) in
  0 < l → 1 ≤ p →
  (hasNext (pagination out) = true ↔
   productsOut (listProductsOf catalog (pageQuery search (p + 1) l)) ≠ []) ∧
  (hasPrev (pagination out) = true ↔ 2 ≤ p) ∧
  (hasNext (pagination out) = true → length (productsOut out) = Z.to_nat l) ∧
  (hasNext (pagination out) = false →
   pagesUpTo catalog search l (Z.to_nat p) = filterProducts catalog search).
Proof.
  intros out Hl Hp.
  assert (Hnext : hasNext (pagination out)
                  = bool_decide (p * l < Z.of_nat (length (filterProducts catalog search)))).
  { subst out. unfold listProductsOf, pageQuery. simpl.
    by rewrite endIndex_integer, ltNumber_integer. }
  assert (Hprev : hasPrev (pagination out) = bool_decide (0 < (p - 1) * l)).
  { subst out. unfold listProductsOf, pageQuery. simpl.
    rewrite startIndex_integer. change 0%Q with (inject_Z 0).
    by rewrite ltNumber_integer. }
  rewrite Hnext, Hprev. subst out. rewrite !page_take_drop by lia.
  set (matching := filterProducts catalog search).
  split_and!.
  - rewrite bool_decide_eq_true. split.
    + intros Hlt Hnil. apply (f_equal length) in Hnil.
      rewrite length_take, length_drop in Hnil. simpl in Hnil. nia.
    + intros Hne. destruct (Z.lt_ge_cases (p * l) (Z.of_nat (length matching)))
        as [|Hge]; [done|].
      destruct Hne. rewrite drop_ge; [by rewrite take_nil|]. nia.
  - rewrite bool_decide_eq_true. nia.
  - rewrite bool_decide_eq_true. intros Hlt.
    rewrite length_take, length_drop. nia.
  - rewrite bool_decide_eq_false. intros Hge.
    rewrite pagesUpTo_take by done. apply take_ge. fold matching. nia.
Qed.

Lemma hasNext_hasPrev_witness :
  hasNext (pagination (listProducts (pageQuery None 2 2))) = true ∧
  length (productsOut (listProducts (pageQuery None 2 2))) = 2%nat.
Proof.
  destruct (hasNext_hasPrev products None 2 2 ltac:(lia) ltac:(lia))
    as (_ & _ & Hfull & _).
  split; [reflexivity|]. apply Hfull. reflexivity.
Defined.



(** ** Search *)

Lemma append_cons c (a b : string) : String c a +:+ b = String c (a +:+ b).
Proof. reflexivity. Qed.

Lemma prefix_spec sub : ∀ s, String.prefix sub s = true ↔ ∃ post, s = sub +:+ post.
Proof.
  induction sub as [|a sub IH]; intros s.
  - destruct s; simpl; split; eauto.
  - destruct s as [|b s]; simpl.
    + split; [done|]. by intros (post & ?).
    + destruct (ascii_dec a b) as [->|Hne].
      * rewrite IH. split; intros (post & Hpost); exists post;
          rewrite append_cons in *; congruence.
      * split; [done|]. intros (post & Hpost).
        rewrite append_cons in Hpost. congruence.
Qed.

Lemma includes_spec sub : ∀ s, includes s sub = true ↔ isSubstring sub s.
Proof.
  unfold isSubstring. induction s as [|c r IH].
  - change (includes "" sub) with (String.prefix sub "" || false).
    rewrite orb_false_r, prefix_spec. split.
    + intros (post & ->). by exists "", post.
    + intros ([|? pre] & post & Heq); [eauto|done].
  - change (includes (String c r) sub)
      with (String.prefix sub (String c r) || includes r sub).
    rewrite orb_true_iff, prefix_spec, IH. split.
    + intros [(post & ->)|(pre & post & ->)].
      * by exists "", post.
      * by exists (String c pre), post.
    + intros ([|c' pre] & post & Heq).
      * left. eauto.
      * right. rewrite append_cons in Heq. injection Heq as -> ->. eauto.
Qed.

Lemma lowerChar_idemp c : lowerChar (lowerChar c) = lowerChar c.
Proof. destruct c as [[] [] [] [] [] [] [] []]; reflexivity. Qed.

Lemma toLowerCase_idemp s : toLowerCase (toLowerCase s) = toLowerCase s.
Proof. induction s as [|c r IH]; simpl; [done|]. by rewrite lowerChar_idemp, IH. Qed.

Lemma toLowerCase_empty s : toLowerCase s = "" ↔ s = "".
Proof. by destruct s. Qed.

Lemma list_filter_sublist {A} (f : A → bool) l : sublist (List.filter f l) l.
Proof.
  induction l as [|x l IH]; simpl; [constructor|].
  destruct (f x); by constructor.
Qed.

(** X19.  For a search string of 7-bit characters that is not empty, the
    listing keeps exactly the products of the catalogue whose name or
    description contains the search string, letter case aside, and keeps
    them in catalogue order; the search string in lower case finds the same
    products. *)
Theorem search_matches s product :
  isAscii s → s ≠ "" →
  (product ∈ filterProducts products (Some s) ↔
   product ∈ products ∧
   (isSubstring (toLowerCase s) (toLowerCase (Product.name product)) ∨
    isSubstring (toLowerCase s) (toLowerCase (Product.description product)))) ∧
  sublist (filterProducts products (Some s)) products ∧
  filterProducts products (Some (toLowerCase s)) = filterProducts products (Some s).
Proof.
  intros _ Hne. unfold filterProducts.
  rewrite bool_decide_eq_false_2 by done.
  rewrite bool_decide_eq_false_2 by by rewrite toLowerCase_empty.
  split_and!.
  - by rewrite <- !includes_spec, <- orb_true_iff, !list_elem_of_In, filter_In.
  - apply list_filter_sublist.
  - by rewrite toLowerCase_idemp.
Qed.

Lemma search_matches_witness :
  sony ∈ filterProducts products (Some "WIRELESS").
Proof.
  apply (search_matches "WIRELESS" sony); [vm_compute; tauto|done|].
  split; [vm_compute; set_solver|].
  right. by exists "noise-canceling ", " headphones".
Defined.

(** ** The product identifier of a request *)

Lemma validateProductId_parseInt s s' n :
  parseInt s = Some n → parseInt s' = Some n →
  validateProductId s = validateProductId s'.
Proof.
  intros Hs Hs'. unfold validateProductId, findProductById.
  by rewrite (parse_guard _ _ Hs), (parse_guard _ _ Hs'), Hs, Hs'.
Qed.

Lemma string_append_assoc (a b c : string) : (a +:+ b) +:+ c = a +:+ b +:+ c.
Proof. induction a as [|x a IH]; [done|]. by rewrite !append_cons, IH. Qed.

Lemma decimalDigits_append fuel : ∀ n acc,
  decimalDigits fuel n acc = decimalDigits fuel n "" +:+ acc.
Proof.
  induction fuel as [|fuel IH]; intros n acc; [done|].
  rewrite !decimalDigits_S. destruct (n <? 10); [done|].
  rewrite IH, (IH _ (String _ "")), string_append_assoc. done.
Qed.

(** The numeral of a number from 1 on starts with a digit other than 0, and
    the digits a string starting with it has are those of the numeral, then
    those of the rest. *)
Lemma decimalDigits_nonzero fuel : ∀ n acc,
  1 ≤ n < 10 ^ Z.of_nat (S fuel) →
  ∃ ds d r, ds ≠ [] ∧ digitsValue 10 ds = n ∧ 1 ≤ d < 10 ∧
            decimalDigits (S fuel) n acc = String (digitChar d) r ∧
            digitsPrefix 10 (decimalDigits (S fuel) n acc) = ds ++ digitsPrefix 10 acc.
Proof.
  induction fuel as [|fuel IH]; intros n acc Hn;
    rewrite decimalDigits_S;
    assert (Hd : 0 ≤ n mod 10 < 10) by (apply Z.mod_pos_bound; lia);
    destruct (Z.ltb_spec n 10) as [Hlt|Hge].
  - exists [n], n, acc. rewrite Z.mod_small by lia.
    split_and!; [done|unfold digitsValue; simpl; lia|lia|lia|done|].
    simpl. by rewrite digitValue_digitChar by lia.
  - simpl in Hn. lia.
  - exists [n], n, acc. rewrite Z.mod_small by lia.
    split_and!; [done|unfold digitsValue; simpl; lia|lia|lia|done|].
    simpl. by rewrite digitValue_digitChar by lia.
  - destruct (IH (n / 10) (String (digitChar (n mod 10)) acc))
      as (ds & d & r & Hne & Hv & Hd1 & Hs & Hp).
    { split; [apply Z.div_le_lower_bound; lia|].
      apply Z.div_lt_upper_bound; [lia|].
      replace (Z.of_nat (S (S fuel))) with (Z.succ (Z.of_nat (S fuel))) in Hn by lia.
      rewrite Z.pow_succ_r in Hn by lia. lia. }
    exists (ds ++ [n mod 10]), d, r. split_and!.
    + by destruct ds.
    + rewrite digitsValue_snoc, Hv. pose proof (Z.div_mod n 10). lia.
    + lia.
    + lia.
    + done.
    + rewrite Hp. simpl. rewrite digitValue_digitChar by lia. by rewrite <- app_assoc.
Qed.

Lemma parseInt_numeral_prefix n rest :
  1 ≤ n → digitsPrefix 10 rest = [] → parseInt (toDecimal n +:+ rest) = Some n.
Proof.
  intros Hn Hrest. unfold toDecimal. rewrite <- decimalDigits_append.
  destruct (decimalDigits_nonzero (Z.to_nat (Z.log2 n)) n rest)
    as (ds & d & r & Hne & Hv & Hd & Hs & Hp).
  { split; [done|]. apply log2_decimal_bound. lia. }
  rewrite Hs in Hp |- *. unfold parseInt.
  assert (Ht : trimStart (String (digitChar d) r) = String (digitChar d) r)
    by (digit_cases d; reflexivity).
  assert (Hsg : stripSign (String (digitChar d) r) = (1, String (digitChar d) r))
    by (digit_cases d; reflexivity).
  assert (Hx : stripHexPrefix (String (digitChar d) r) = (10, String (digitChar d) r))
    by (digit_cases d; first [lia|reflexivity]).
  rewrite Ht, Hsg, Hx, Hp, Hrest, app_nil_r.
  destruct ds; [done|]. rewrite Hv. f_equal. lia.
Qed.

(** X20.  The routes use the product identifier of the path only through
    the number [parseInt] reads from it: two identifiers that read as the
    same number get the same answer and leave the same store, on
    GET /api/products/:productId and on POST, PUT and
    DELETE /api/cart/:productId. *)
Theorem productId_read_by_parseInt s s' n header uuid quantity st :
  parseInt s = Some n → parseInt s' = Some n →
  getProduct s = getProduct s' ∧
  handle (PostCart header uuid s quantity) st
  = handle (PostCart header uuid s' quantity) st ∧
  handle (PutCart header uuid s quantity) st
  = handle (PutCart header uuid s' quantity) st ∧
  handle (DeleteCartItem header uuid s) st
  = handle (DeleteCartItem header uuid s') st.
Proof.
  intros Hs Hs'. unfold getProduct, handle. simpl.
  rewrite (validateProductId_parseInt s s' n Hs Hs').
  split_and!; try done.
  unfold removeItem. destruct (getOrCreateCart _ st) as [c st'].
  by rewrite (parse_guard _ _ Hs), (parse_guard _ _ Hs'), Hs, Hs'.
Qed.

Lemma productId_read_by_parseInt_witness :
  getProduct " +4" = getProduct "4.0".
Proof.
  apply (productId_read_by_parseInt " +4" "4.0" 4 None "" None emptyStore);
    reflexivity.
Defined.

(** X21.  [parseInt] reads the decimal numeral of a number from 1 on and
    ignores what follows it, when that does not start with a digit: the
    route answers for such an identifier, as 3abc, what it answers for the
    numeral alone. *)
Theorem numeral_prefix_names_product n rest :
  1 ≤ n → digitsPrefix 10 rest = [] →
  parseInt (toDecimal n +:+ rest) = Some n ∧
  getProduct (toDecimal n +:+ rest) = getProduct (toDecimal n).
Proof.
  intros Hn Hrest.
  pose proof (parseInt_numeral_prefix n rest Hn Hrest) as Hp.
  split; [done|].
  unfold getProduct. eapply validateProductId_parseInt; [done|].
  apply parseInt_toDecimal. lia.
Qed.

Lemma numeral_prefix_names_product_witness :
  getProduct "3abc" = getProduct "3".
Proof.
  apply (numeral_prefix_names_product 3 "abc"); [lia|reflexivity].
Defined.

(** ** Scenarios *)

(** POST /api/cart/1 with quantity 2 on a new session: 201, one line item
    with quantity 2, total 1999.98. *)
Example scenario_add_two :
  (handle (PostCart None "fresh" "1" (Some (JInteger 2))) emptyStore).1
  = Success 201 (mkData [snapshot iPhone 2] (Number.cents 199998) 1 None).
Proof. vm_compute. reflexivity. Qed.

(** PUT /api/cart/1 with quantity 51, above the stock of 50: 400, and the
    cart stays. *)
Example scenario_update_above_stock :
  (handle (PutCart (Some "alice") "" "1" (Some (JInteger 51))) aliceStore).1
  = Failure 400 InsufficientStock ∧
  cartOf (handle (PutCart (Some "alice") "" "1" (Some (JInteger 51))) aliceStore).2 "alice"
  = Some [snapshot iPhone 2].
Proof. split; vm_compute; reflexivity. Qed.

(** PUT with a quantity of zero, or with none: the first is refused by
    [validateQuantity], the second by the handler. *)
Example scenario_update_without_quantity :
  (handle (PutCart (Some "alice") "" "1" (Some (JInteger 0))) aliceStore).1
  = Failure 400 InvalidQuantity ∧
  (handle (PutCart (Some "alice") "" "1" None) aliceStore).1
  = Failure 400 QuantityRequired.
Proof. split; vm_compute; reflexivity. Qed.

(** DELETE /api/cart/999, never added: 404. *)
Example scenario_remove_unknown :
  (handle (DeleteCartItem (Some "alice") "" "999") aliceStore).1 = Failure 404 NotFound.
Proof. vm_compute. reflexivity. Qed.

(** DELETE /api/cart on an empty cart: 400; on a cart with items: 200, and
    the cart is empty afterwards. *)
Example scenario_clear :
  (handle (DeleteCart (Some "bob") "") aliceStore).1 = Failure 400 AlreadyEmpty ∧
  (handle (DeleteCart (Some "alice") "") aliceStore).1
  = Success 200 (mkData [] Number.zero 0 None) ∧
  cartOf (handle (DeleteCart (Some "alice") "") aliceStore).2 "alice" = Some [].
Proof. split_and!; vm_compute; reflexivity. Qed.

(** GET /api/products?search=PHONE: the search ignores case and looks into
    names and descriptions; with no search, or an empty one, every product
    matches. *)
Example scenario_search :
  Product.id <$> productsOut (listProducts (mkQuery None None (Some "PHONE"))) = [1; 2; 4] ∧
  productsOut (listProducts (mkQuery None None (Some ""))) = products ∧
  productsOut (listProducts (mkQuery None None None)) = products.
Proof. split_and!; vm_compute; reflexivity. Qed.
